(** * Tick pipeline: ingestion, normalisation, aggregation and fan-out

    A shallow embedding of [backend/main.py] and
    [backend/tools/backfill_yahoo.py], and the properties of the pipeline
    proved (or refuted) on it.

    Conventions of the embedding.
    - An instant ([datetime] with [tzinfo=UTC], [TIMESTAMPTZ]) is the number
      of microseconds since the Unix epoch, a [Z].
    - A price ([float], [DOUBLE PRECISION]) is the rational number the finite
      float denotes, a [Q]; [float(x)] of a number is the identity.  NaN and
      the infinities are outside the model, and so is rounding: [v / 1000.0]
      is the exact quotient.
    - A Python exception is the [Raise] branch of [outcome].
    - What the code reads from outside (clock, HTTP responses, random jitter,
      whether a store write or a socket send fails) is an explicit argument. *)

From Stdlib Require Import ZArith QArith Qminmax Lia.
From stdpp Require Import base option list gmap sets strings sorting.
From Equations Require Import Equations.

Local Open Scope Z_scope.

(** ** Exceptions *)

Inductive exn : Type :=
| ValueError        (* datetime out of range, float() of a non-number *)
| TransportError    (* httpx / websocket I/O failure *)
| JSONDecodeError   (* r.json() on a body that is not JSON *)
| StatementError.   (* SQLAlchemy / database failure *)

Inductive outcome (A : Type) : Type :=
| Ret (a : A)
| Raise (e : exn).
Arguments Ret {A} a.
Arguments Raise {A} e.

#[global] Instance outcome_ret : MRet outcome := fun A a => Ret a.

#[global] Instance outcome_bind : MBind outcome := fun A B k m =>
  match m with
  | Ret a => k a
  | Raise e => Raise e
  end.

(** ** Instants *)

Definition instant := Z.

Definition USEC_PER_SEC : Z := 1000000.
Definition USEC_PER_MSEC : Z := 1000.

(** [datetime.min] and [datetime.max] at UTC, in microseconds:
    0001-01-01T00:00:00 and 9999-12-31T23:59:59.999999. *)
Definition DATETIME_MIN : Z := -62135596800 * USEC_PER_SEC.
Definition DATETIME_MAX : Z := 253402300800 * USEC_PER_SEC - 1.

Definition representable (us : Z) : bool :=
  (DATETIME_MIN <=? us) && (us <=? DATETIME_MAX).

(** [datetime.fromtimestamp(sec, tz=timezone.utc)], the argument given in
    microseconds; a year outside 1..9999 raises. *)
Definition fromtimestamp (us : Z) : outcome instant :=
  if representable us then Ret us else Raise ValueError.

Definition timedelta_minutes (k : Z) : Z := k * 60 * USEC_PER_SEC.
Definition timedelta_seconds (k : Z) : Z := k * USEC_PER_SEC.

(** ** Timestamp normaliser: [ts_utc_from_finnhub] (main.py 51-56)

    [ts_val] is the JSON number of the feed, or [None] when the key is absent
    or null.  [not ts_val] is true for [None] and for [0]. *)

Definition ts_utc_from_finnhub (now : instant) (ts_val : option Z)
  : outcome instant :=
  match ts_val with
  | None => Ret now
  | Some v =>
      if v =? 0 then Ret now
      else
        (* sec = ts_val / 1000.0 if ts_val > 1e12 else float(ts_val) *)
        let us := if 10 ^ 12 <? v
                  then v * USEC_PER_MSEC
                  else v * USEC_PER_SEC in
        fromtimestamp us
  end.


(** ** The tick store: table [prices (ts, symbol, price)] *)

Record row : Type := { row_ts : instant; row_symbol : string; row_price : Q }.

(** The text [json.dumps({"type": "prices", "data": out})] sent to the
    subscribers, represented by the batch it serialises. *)
Inductive message : Type :=
| Prices (data : list row).

(** ** Broadcast hub: [WSManager] (main.py 59-77)

    A connection is known by its identity.  The transport keeps, for every
    connection, the messages delivered to it; [send_fails ws] tells whether
    [ws.send_text] raises during this broadcast. *)

Definition WebSocket := nat.

Record WSManager : Type := { active : gset WebSocket }.

Definition inbox (net : gmap WebSocket (list message)) (ws : WebSocket)
  : list message :=
  default [] (net !! ws).

Definition connect (m : WSManager) (ws : WebSocket) : WSManager :=
  {| active := {[ws]} ∪ active m |}.

Definition disconnect (m : WSManager) (ws : WebSocket) : WSManager :=
  {| active := active m ∖ {[ws]} |}.

Definition send_text (send_fails : WebSocket -> bool)
    (net : gmap WebSocket (list message)) (ws : WebSocket) (msg : message)
  : outcome (gmap WebSocket (list message)) :=
  if send_fails ws then Raise TransportError
  else Ret (<[ws := inbox net ws ++ [msg]]> net).

(** One turn of [for ws in list(self.active)]: the state is the list [dead]
    and the transport. *)
Definition broadcast_step (send_fails : WebSocket -> bool) (msg : message)
    (st : list WebSocket * gmap WebSocket (list message)) (ws : WebSocket)
  : list WebSocket * gmap WebSocket (list message) :=
  match send_text send_fails (snd st) ws msg with
  | Ret net' => (fst st, net')
  | Raise _ => (fst st ++ [ws], snd st)
  end.

Definition broadcast (send_fails : WebSocket -> bool) (m : WSManager)
    (net : gmap WebSocket (list message)) (msg : message)
  : WSManager * gmap WebSocket (list message) :=
  let st := foldl (broadcast_step send_fails msg) ([], net)
                  (elements (active m)) in
  (foldl disconnect m (fst st), snd st).

(** ** Polling ingestor: [finnhub_poll_task] (main.py 100-144) *)

(** The JSON object of a quote: [q.get("c")] and [q.get("t")], [None] when
    the key is absent or null. *)
Record quote : Type := { q_c : option Q; q_t : option Z }.

(** What [await client.get(...)] does: it raises (timeout, connection
    error), or returns a response.  [body = None] is a body on which
    [r.json()] raises. *)
Inductive response : Type :=
| HttpRaises
| HttpResponse (status_code : Z) (body : option quote).

Inductive event : Type :=
| Printed_quote_error (api_symbol : string) (status_code : Z)
| Printed_poll_error (e : exn)
| Broadcast (msg : message)
| Slept (seconds : Z).

(** What one cycle reads from outside. *)
Record poll_env : Type := {
  client_get : string -> response;   (* by api_symbol *)
  clock : string -> instant;         (* datetime.now when the symbol is handled *)
  insert_fails : row -> bool;        (* db.execute or db.commit raises *)
  send_fails : WebSocket -> bool;    (* ws.send_text raises *)
}.

Record system : Type := {
  prices : list row;
  ws_manager : WSManager;
  net : gmap WebSocket (list message);
  trace : list event;
}.

Definition REST_SYMBOLS : list (string * string) :=
  [("QQQ", "QQQ"); ("SPY", "SPY")]%string.

(** Line 125: [datetime.fromtimestamp(ts_sec, tz=timezone.utc) if ts_sec
    else datetime.now(timezone.utc)]. *)
Definition quote_ts (env : poll_env) (api_symbol : string) (ts_sec : Z)
  : outcome instant :=
  if ts_sec =? 0 then Ret (clock env api_symbol)
  else fromtimestamp (ts_sec * USEC_PER_SEC).

(** The state of the [for] loop over the symbols: the batch [out], the
    table and the printed lines.  An exception leaves the loop with the
    table and the lines as they are at that point. *)
Record poll_state : Type := {
  out : list row;
  table : list row;
  printed : list event;
}.

(** [print("quote error", ...)], and a successful INSERT followed by
    [out.append(...)]. *)
Definition say (st : poll_state) (e : event) : poll_state :=
  {| out := out st; table := table st; printed := printed st ++ [e] |}.

Definition written (st : poll_state) (r : row) : poll_state :=
  {| out := out st ++ [r]; table := table st ++ [r]; printed := printed st |}.

Fixpoint poll_symbols (env : poll_env) (symbols : list (string * string))
    (st : poll_state) : poll_state * outcome unit :=
  match symbols with
  | [] => (st, Ret tt)
  | (api_symbol, store_symbol) :: rest =>
      match client_get env api_symbol with
      | HttpRaises => (st, Raise TransportError)
      | HttpResponse status body =>
          if negb (status =? 200) then
            (* print("quote error", ...); continue *)
            poll_symbols env rest (say st (Printed_quote_error api_symbol status))
          else
            match body with
            | None => (st, Raise JSONDecodeError)
            | Some q =>
                let ts_sec := default 0 (q_t q) in     (* q.get("t") or 0 *)
                match q_c q with
                | None => poll_symbols env rest st     (* price is None: continue *)
                | Some price =>
                    match quote_ts env api_symbol ts_sec with
                    | Raise e => (st, Raise e)
                    | Ret ts =>
                        let r := {| row_ts := ts; row_symbol := store_symbol;
                                    row_price := price |} in
                        if insert_fails env r then (st, Raise StatementError)
                        else
                          poll_symbols env rest (written st r)
                    end
                end
            end
      end
  end.

(** One turn of [while True]: the [try] block, its [except], the sleep. *)
Definition poll_cycle (env : poll_env) (s : system) : system :=
  let '(st, res) :=
    poll_symbols env REST_SYMBOLS
      {| out := []; table := prices s; printed := [] |} in
  match res with
  | Ret _ =>
      match out st with
      | [] =>
          {| prices := table st; ws_manager := ws_manager s; net := net s;
             trace := trace s ++ printed st ++ [Slept 5] |}
      | _ :: _ =>
          let msg := Prices (out st) in
          let '(m', net') := broadcast (send_fails env) (ws_manager s) (net s) msg in
          {| prices := table st; ws_manager := m'; net := net';
             trace := trace s ++ printed st ++ [Broadcast msg; Slept 5] |}
      end
  | Raise e =>
      {| prices := table st; ws_manager := ws_manager s; net := net s;
         trace := trace s ++ printed st ++ [Printed_poll_error e; Slept 5] |}
  end.

(** The first [length envs] turns of the task; without a token the task
    returns at once. *)
Definition finnhub_poll_task (FINNHUB_TOKEN : option string)
    (envs : list poll_env) (s : system) : system :=
  match FINNHUB_TOKEN with
  | None | Some EmptyString => s
  | Some _ => foldl (fun s env => poll_cycle env s) s envs
  end.

(** The messages handed to [ws_manager.broadcast], read off a trace. *)
Definition broadcasts (tr : list event) : list message :=
  omap (fun e => match e with Broadcast m => Some m | _ => None end) tr.


(** The endpoint [ws_prices] (main.py 80-88) from [accept] to the
    [WebSocketDisconnect] that ends its loop. *)
Definition ws_prices (m : WSManager) (ws : WebSocket) : WSManager :=
  disconnect (connect m ws) ws.

(** ** Backfill service: [backfill_yahoo] (main.py 277-380) *)

Definition ascii_lower (c : Ascii.ascii) : Ascii.ascii :=
  let n := Ascii.nat_of_ascii c in
  if ((65 <=? n) && (n <=? 90))%nat then Ascii.ascii_of_nat (n + 32) else c.

Fixpoint lower (s : string) : string :=
  match s with
  | EmptyString => EmptyString
  | String c s' => String (ascii_lower c) (lower s')
  end.

Definition endswith (s suffix : string) : bool :=
  String.prefix (String.rev suffix) (String.rev s).

Definition _yahoo_interval (res : string) : string :=
  if (String.eqb res "D" || String.eqb (lower res) "d")%bool
  then "1d"%string
  else (res ++ "m")%string.

Definition _chunk_days_for_interval (interval : string) : Z :=
  if endswith interval "m" then 5 else 180.

(** [_backoff_sleep(attempt)]: the seconds slept, [jitter] being the draw
    of [random.uniform(0.0, 0.5)]. *)
Definition _backoff_sleep (jitter : Q) (attempt : Z) : Q :=
  let base := Z.min 8 (2 ^ Z.max 0 attempt) in
  (inject_Z base + jitter)%Q.

(** A response of the chart endpoint.  [y_json = None]: [r.json()] raises;
    [Some None]: the JSON has no [chart.result[0]] (the [except] branch);
    [Some (Some (ts_list, close_list))]: the two lists read from it, each
    [[]] when its key is absent. *)
Record yahoo_response : Type := {
  y_status : Z;
  y_text : string;
  y_json : option (option (list Z * list (option Q)));
}.

Inductive backfill_event : Type :=
| Get (period1 period2 : Z) (interval : string) (includePrePost : bool)
| Backoff_sleep (seconds : Q)     (* time.sleep inside _backoff_sleep *)
| Polite_sleep (seconds : Q).     (* time.sleep(0.25) between chunks *)

(** What a run reads from outside: the response to its n-th request and
    the n-th draw of [random.uniform(0.0, 0.5)]. *)
Record yahoo_env : Type := {
  yahoo_get : nat -> yahoo_response;
  uniform : nat -> Q;
}.

Record backfill_state : Type := {
  db : list row;
  inserted_total : Z;
  requests : nat;
  draws : nat;
  events : list backfill_event;
}.

Definition transient (status : Z) : bool :=
  (status =? 429) || (status =? 502) || (status =? 503) || (status =? 504).

(** The state after [client.get] was called, after [_backoff_sleep] drew
    its jitter and slept, and after any other [time.sleep]. *)
Definition after_get (st : backfill_state) (e : backfill_event)
  : backfill_state :=
  {| db := db st; inserted_total := inserted_total st;
     requests := S (requests st); draws := draws st;
     events := events st ++ [e] |}.

Definition after_backoff (st : backfill_state) (slept : Q) : backfill_state :=
  {| db := db st; inserted_total := inserted_total st;
     requests := requests st; draws := S (draws st);
     events := events st ++ [Backoff_sleep slept] |}.

Definition after_sleep (st : backfill_state) (seconds : Q) : backfill_state :=
  {| db := db st; inserted_total := inserted_total st;
     requests := requests st; draws := draws st;
     events := events st ++ [Polite_sleep seconds] |}.

(** [for attempt in range(5)], entered at [attempt] with [more] further
    turns left after this one ([retry 4 0] is the whole loop).  The result
    is the last response [r] and whether the loop was left by the [return]
    inside it. *)
Fixpoint retry (env : yahoo_env) (t1 t2 : Z) (interval : string)
    (include_prepost : bool) (more : nat) (attempt : Z) (st : backfill_state)
  : backfill_state * (yahoo_response * bool) :=
  let r := yahoo_get env (requests st) in
  let st1 := after_get st (Get t1 t2 interval include_prepost) in
  if y_status r =? 200 then (st1, (r, false))                 (* break *)
  else if transient (y_status r) then
    let st2 :=
      after_backoff st1 (_backoff_sleep (uniform env (draws st1)) attempt) in
    match more with
    | O => (st2, (r, false))                                  (* range exhausted *)
    | S more' =>
        retry env t1 t2 interval include_prepost more' (attempt + 1) st2
    end
  else (st1, (r, true)).                                      (* return *)

(** [for t, c in zip(ts_list, close_list)]. *)
Fixpoint insert_closes (symbol : string) (ts_list : list Z)
    (close_list : list (option Q)) (st : backfill_state) : backfill_state :=
  match ts_list, close_list with
  | t :: ts_list', Some c :: close_list' =>
      insert_closes symbol ts_list' close_list'
        {| db := db st ++ [{| row_ts := t * USEC_PER_SEC; row_symbol := symbol;
                              row_price := c |}];
           inserted_total := inserted_total st + 1;
           requests := requests st; draws := draws st; events := events st |}
  | _ :: ts_list', None :: close_list' =>
      insert_closes symbol ts_list' close_list' st
  | _, _ => st
  end.

(** The rows that loop inserts: one per pair of [zip(ts_list, close_list)]
    whose close is not null, in order. *)
Definition chunk_rows (symbol : string)
    (data : option (list Z * list (option Q))) : list row :=
  omap (fun tc : Z * option Q =>
          (fun x => {| row_ts := tc.1 * USEC_PER_SEC; row_symbol := symbol;
                       row_price := x |}) <$> tc.2)
       (zip (default ([], []) data).1 (default ([], []) data).2).

(** The dictionary returned on failure. *)
Record backfill_failure : Type := {
  f_status : Z;
  f_text : string;
  f_chunk : Z * Z;
}.

Definition is_nil {A} (l : list A) : bool :=
  match l with [] => true | _ => false end.

(** Lines 346-366: the two lists read from the JSON ([[]], [[]] in the
    [except] branch) and the INSERT of every close that is not null. *)
Definition store_closes (symbol : string)
    (data : option (list Z * list (option Q))) (st : backfill_state)
  : backfill_state :=
  let '(ts_list, close_list) := default ([], []) data in
  if negb (is_nil ts_list) && negb (is_nil close_list)
  then insert_closes symbol ts_list close_list st
  else st.

(** The body of [while t2 > start] for the window [[t1, t2]]: [Ret None]
    lets the loop go on, [Ret (Some f)] is [return f]. *)
Definition backfill_chunk (env : yahoo_env) (symbol interval : string)
    (include_prepost : bool) (t1 t2 : Z) (st : backfill_state)
  : backfill_state * outcome (option backfill_failure) :=
  let '(st1, (r, returned)) :=
    retry env t1 t2 interval include_prepost 4 0 st in
  let failure := {| f_status := y_status r; f_text := y_text r;
                    f_chunk := (t1, t2) |} in
  if returned then (st1, Ret (Some failure))
  else if negb (y_status r =? 200) then (st1, Ret (Some failure))
  else
    match y_json r with
    | None => (st1, Raise JSONDecodeError)
    | Some data =>
        (after_sleep (store_closes symbol data st1) (1 # 4), Ret None)
    end.

Definition window_start (interval : string) (start t2 : Z) : Z :=
  Z.max start (t2 - _chunk_days_for_interval interval * 24 * 60 * 60).

Equations? backfill_chunks (env : yahoo_env) (symbol interval : string)
    (include_prepost : bool) (start t2 : Z) (st : backfill_state)
  : backfill_state * outcome (option backfill_failure)
  by wf (Z.to_nat (t2 - start)) lt :=
backfill_chunks env symbol interval include_prepost start t2 st
  with Z_lt_dec start t2 => {
  | right _ => (st, Ret None);
  | left _
      with backfill_chunk env symbol interval include_prepost
             (window_start interval start t2) t2 st => {
      | (st', Ret None) =>
          backfill_chunks env symbol interval include_prepost start
            (window_start interval start t2) st';
      | (st', stop) => (st', stop) } }.
Proof.
  unfold window_start, _chunk_days_for_interval.
  destruct (endswith interval "m"); lia.
Qed.

Inductive backfill_response : Type :=
| Backfill_ok (inserted : Z) (symbol res interval : string)
              (days_requested chunk_days : Z)
| Backfill_failed (f : backfill_failure).

Definition backfill_yahoo (env : yahoo_env) (now : Z) (table0 : list row)
    (symbol res : string) (days : Z) (include_prepost : bool)
  : backfill_state * outcome backfill_response :=
  let interval := _yahoo_interval res in
  let start := now - days * 24 * 60 * 60 in
  let chunk_days := _chunk_days_for_interval interval in
  let st0 := {| db := table0; inserted_total := 0; requests := O; draws := O;
                events := [] |} in
  let '(st, res_loop) :=
    backfill_chunks env symbol interval include_prepost start now st0 in
  match res_loop with
  | Raise e => (st, Raise e)
  | Ret (Some f) => (st, Ret (Backfill_failed f))
  | Ret None =>
      (st, Ret (Backfill_ok (inserted_total st) symbol res interval days
                            chunk_days))
  end.

(** ** Aggregation engine: [get_ohlc] (main.py 494-564) *)

(** [resolution] after [str(resolution).strip().upper()], by the branch of
    lines 503-509 it takes: the text ["D"], a text [int()] parses, or any
    other text. *)
Inductive resolution : Type :=
| Daily
| Minutes (n : Z)
| Unparsable.

Definition res_min_of (res : resolution) : Z :=
  match res with
  | Daily => 1440
  | Minutes n => n
  | Unparsable => 1
  end.

(** TimescaleDB's [time_bucket(width, ts)] on [timestamptz]: buckets are
    aligned to its origin, Monday 2000-01-03T00:00:00Z. *)
Definition TIME_BUCKET_ORIGIN : Z := 946857600 * USEC_PER_SEC.

Definition time_bucket (width ts : Z) : Z :=
  TIME_BUCKET_ORIGIN + width * ((ts - TIME_BUCKET_ORIGIN) / width).

Definition make_interval_mins (mins : Z) : Z := mins * 60 * USEC_PER_SEC.

(** The common table expression [b], without its computed [bucket] column:
    the rows of the symbol inside the lookback window, in table order. *)
Definition cte_b (symbol : string) (lookback_min : Z) (now : instant)
    (prices : list row) : list row :=
  filter (fun r => row_symbol r = symbol
                   /\ now - make_interval_mins lookback_min <= row_ts r) prices.

Definition bucket_of (res_min : Z) (r : row) : Z :=
  time_bucket (make_interval_mins res_min) (row_ts r).

Definition rows_of_bucket (res_min bucket : Z) (b : list row) : list row :=
  filter (fun r => bucket_of res_min r = bucket) b.

(** [MIN(price)] and [MAX(price)] over a group whose first row is [r]. *)
Definition sql_min (r : row) (rest : list row) : Q :=
  foldl (fun acc r' => Qmin acc (row_price r')) (row_price r) rest.

Definition sql_max (r : row) (rest : list row) : Q :=
  foldl (fun acc r' => Qmax acc (row_price r')) (row_price r) rest.

(** [DISTINCT ON (bucket) ... ORDER BY bucket, ts ASC] and [... ts DESC]:
    the first row of the group in that order.  SQL leaves the choice among
    rows of equal [ts] open; here it is the first of them in table order. *)
Definition first_by_ts_asc (r : row) (rest : list row) : row :=
  foldl (fun best r' => if row_ts r' <? row_ts best then r' else best) r rest.

Definition first_by_ts_desc (r : row) (rest : list row) : row :=
  foldl (fun best r' => if row_ts best <? row_ts r' then r' else best) r rest.

(** A row of the final [SELECT], then an element of the list returned. *)
Record bar : Type := {
  bar_time : Z;      (* "time": unix seconds of the bucket start *)
  bar_open : Q;
  bar_high : Q;
  bar_low : Q;
  bar_close : Q;
}.

Definition bar_of_group (bucket : Z) (group : list row) : option bar :=
  match group with
  | [] => None
  | r :: rest =>
      Some {| bar_time := Z.quot bucket USEC_PER_SEC;
              bar_open := row_price (first_by_ts_asc r rest);
              bar_high := sql_max r rest;
              bar_low := sql_min r rest;
              bar_close := row_price (first_by_ts_desc r rest) |}
  end.

(** The statement [sql]: one bar per bucket of [b], ascending by bucket. *)
Definition ohlc_query (res_min : Z) (b : list row) : list bar :=
  omap (fun bucket => bar_of_group bucket (rows_of_bucket res_min bucket b))
       (merge_sort Z.le (remove_dups (bucket_of res_min <$> b))).

Inductive http_error : Type :=
| HTTPException (status_code : Z).

(** [time_bucket] rejects a width that is not positive ("period must be
    greater than 0") on the first row it is applied to; the [except] turns
    that into a 400. *)
Definition get_ohlc (prices : list row) (now : instant) (symbol : string)
    (res : resolution) (lookback_minutes : Z) : list bar + http_error :=
  let res_min := res_min_of res in
  let b := cte_b symbol lookback_minutes now prices in
  if (res_min <=? 0) && negb (is_nil b) then inr (HTTPException 400)
  else inl (ohlc_query res_min b).

(** ** Bar-to-tick synthesiser (tools/backfill_yahoo.py) *)

(** The rows built there are Python dictionaries.  A dictionary display
    [{k1: v1, k2: v2, k3: v3}] stores its items from left to right, a later
    item replacing an earlier one with the same key. *)
Inductive value : Type :=
| VInstant (t : instant)
| VStr (s : string)
| VFloat (x : Q).

Definition dict_display (items : list (string * value)) : gmap string value :=
  foldl (fun d kv => <[kv.1 := kv.2]> d) ∅ items.

Definition USEC_PER_DAY : Z := 24 * 60 * 60 * USEC_PER_SEC.
Definition USEC_PER_MINUTE : Z := 60 * USEC_PER_SEC.

(** [dt.replace(hour=0, minute=0, second=0, microsecond=0)] and
    [dt.replace(second=0, microsecond=0)] on a UTC datetime. *)
Definition replace_to_midnight (dt : instant) : instant :=
  dt - dt mod USEC_PER_DAY.

Definition replace_to_minute (dt : instant) : instant :=
  dt - dt mod USEC_PER_MINUTE.

(** Lines 49-58.  The second item of each display is written
    [symbol: symbol]: its key is the value of the argument [symbol]. *)
Definition synth_ticks_for_candle (day_ts_utc : instant) (symbol : string)
    (o h l c : Q) : list (gmap string value) :=
  let base := replace_to_midnight day_ts_utc in
  [ dict_display [("ts"%string, VInstant (base + timedelta_minutes 0));
                  (symbol, VStr symbol); ("price"%string, VFloat o)];
    dict_display [("ts"%string, VInstant (base + timedelta_minutes 1));
                  (symbol, VStr symbol); ("price"%string, VFloat l)];
    dict_display [("ts"%string, VInstant (base + timedelta_minutes 2));
                  (symbol, VStr symbol); ("price"%string, VFloat h)];
    dict_display [("ts"%string, VInstant (base + timedelta_minutes 3));
                  (symbol, VStr symbol); ("price"%string, VFloat c)] ].

(** A row of the data frame returned by [ticker.history]. *)
Record candle : Type := {
  c_ts : instant;
  c_open : Q;
  c_high : Q;
  c_low : Q;
  c_close : Q;
}.

(** Lines 94-101, the body of the loop of [backfill_intraday]. *)
Definition intraday_ticks_for_candle (symbol : string) (k : candle)
  : list (gmap string value) :=
  let minute_start := replace_to_minute (c_ts k) in
  [ dict_display [("ts"%string, VInstant (minute_start + timedelta_seconds 0));
                  (symbol, VStr symbol); ("price"%string, VFloat (c_open k))];
    dict_display [("ts"%string, VInstant (minute_start + timedelta_seconds 15));
                  (symbol, VStr symbol); ("price"%string, VFloat (c_low k))];
    dict_display [("ts"%string, VInstant (minute_start + timedelta_seconds 30));
                  (symbol, VStr symbol); ("price"%string, VFloat (c_high k))];
    dict_display [("ts"%string, VInstant (minute_start + timedelta_seconds 45));
                  (symbol, VStr symbol); ("price"%string, VFloat (c_close k))] ].

(** The parameters [:ts], [:symbol], [:price] of the INSERT, taken from one
    dictionary; [None] when one is missing or has the wrong type. *)
Definition bind_params (d : gmap string value) : option row :=
  match d !! "ts"%string, d !! "symbol"%string, d !! "price"%string with
  | Some (VInstant t), Some (VStr s), Some (VFloat x) =>
      Some {| row_ts := t; row_symbol := s; row_price := x |}
  | _, _, _ => None
  end.

(** Lines 39-46: one [executemany] in one transaction; a dictionary that
    does not bind every parameter makes the statement raise and nothing is
    inserted. *)
Definition insert_ticks (rows : list (gmap string value)) (prices : list row)
  : outcome (list row) :=
  match rows with
  | [] => Ret prices
  | _ :: _ =>
      match mapM bind_params rows with
      | Some rs => Ret (prices ++ rs)
      | None => Raise StatementError
      end
  end.

(** Lines 60-78 and 80-104, [df] being what [ticker.history] returned. *)
Definition backfill_daily (symbol : string) (df : list candle)
    (prices : list row) : outcome (list row) :=
  match df with
  | [] => Ret prices
  | _ :: _ =>
      insert_ticks
        (flat_map (fun k => synth_ticks_for_candle
                              (replace_to_midnight (c_ts k)) symbol
                              (c_open k) (c_high k) (c_low k) (c_close k)) df)
        prices
  end.

Definition backfill_intraday (symbol : string) (df : list candle)
    (prices : list row) : outcome (list row) :=
  match df with
  | [] => Ret prices
  | _ :: _ => insert_ticks (flat_map (intraday_ticks_for_candle symbol) df) prices
  end.

(** [main] (lines 106-115): for SPY, then QQQ, the daily backfill and then
    the intraday one; [history_daily] and [history_intraday] are what
    [ticker.history] returns for a symbol.  An exception of a step ends the
    script.  The table exists, so [ensure_prices_table] changes nothing. *)
Definition main_symbol (history_daily history_intraday : string -> list candle)
    (sym : string) (prices : list row) : outcome (list row) :=
  prices1 ← backfill_daily sym (history_daily sym) prices;
  backfill_intraday sym (history_intraday sym) prices1.

Definition main (history_daily history_intraday : string -> list candle)
    (prices : list row) : outcome (list row) :=
  prices1 ← main_symbol history_daily history_intraday "SPY" prices;
  main_symbol history_daily history_intraday "QQQ" prices1.




(** * Properties *)

(** ** Timestamp normaliser *)






(** ** Broadcast hub *)

Section hub.
Variable send_fails : WebSocket -> bool.
Variable msg : message.

Lemma inbox_insert (net : gmap WebSocket (list message)) (a ws : WebSocket)
    (l : list message) :
  inbox (<[a := l]> net) ws = if decide (a = ws) then l else inbox net ws.
Proof.
  unfold inbox. rewrite lookup_insert. by destruct (decide (a = ws)).
Qed.

Lemma broadcast_step_ok (dead : list WebSocket)
    (net : gmap WebSocket (list message)) (ws : WebSocket) :
  send_fails ws = false ->
  broadcast_step send_fails msg (dead, net) ws
  = (dead, <[ws := inbox net ws ++ [msg]]> net).
Proof. unfold broadcast_step, send_text. simpl. by intros ->. Qed.

Lemma broadcast_step_dead (dead : list WebSocket)
    (net : gmap WebSocket (list message)) (ws : WebSocket) :
  send_fails ws = true ->
  broadcast_step send_fails msg (dead, net) ws = (dead ++ [ws], net).
Proof. unfold broadcast_step, send_text. simpl. by intros ->. Qed.

(** The loop over a snapshot without repetition: [dead] collects exactly
    the connections whose send raised, and exactly the others got [msg]
    appended to what they had received. *)
Lemma broadcast_loop (l : list WebSocket) :
  NoDup l ->
  forall (dead : list WebSocket) (net : gmap WebSocket (list message)),
    let st := foldl (broadcast_step send_fails msg) (dead, net) l in
    (forall ws, ws ∈ st.1 <-> ws ∈ dead \/ (ws ∈ l /\ send_fails ws = true))
    /\ (forall ws, ws ∈ l -> send_fails ws = false ->
                   inbox st.2 ws = inbox net ws ++ [msg])
    /\ (forall ws, ws ∉ l \/ send_fails ws = true ->
                   inbox st.2 ws = inbox net ws).
Proof.
  induction 1 as [|a l Ha Hl IH]; intros dead net; simpl.
  - repeat split; intros; try tauto; set_solver.
  - destruct (send_fails a) eqn:Hsf.
    + rewrite broadcast_step_dead by done.
      destruct (IH (dead ++ [a]) net) as (Hd & Hok & Hko).
      split; [|split].
      * intros ws. rewrite Hd. set_solver.
      * intros ws Hin Hws. apply Hok; [|done].
        apply elem_of_cons in Hin as [->|]; [congruence|done].
      * intros ws [Hin|Hws]; apply Hko; [left; set_solver|].
        destruct (decide (ws ∈ l)); [by right | by left].
    + rewrite broadcast_step_ok by done.
      destruct (IH dead (<[a := inbox net a ++ [msg]]> net)) as (Hd & Hok & Hko).
      split; [|split].
      * intros ws. rewrite Hd. split.
        -- intros [?|[? ?]]; [by left | right; split; [set_solver | done]].
        -- intros [?|[Hin ?]]; [by left|].
           apply elem_of_cons in Hin as [->|]; [congruence | by right].
      * intros ws Hin Hws. apply elem_of_cons in Hin as [->|Hin].
        -- rewrite Hko by (by left). rewrite inbox_insert.
           by rewrite decide_True.
        -- rewrite Hok by done. rewrite inbox_insert.
           rewrite decide_False; [done | by intros ->].
      * intros ws Hws. rewrite Hko.
        -- rewrite inbox_insert. rewrite decide_False; [done|].
           intros ->. destruct Hws as [Hn|Hf]; [set_solver | congruence].
        -- destruct Hws as [Hn|Hf]; [left; set_solver | by right].
Qed.

Lemma active_foldl_disconnect (dead : list WebSocket) (m : WSManager) :
  active (foldl disconnect m dead) = active m ∖ list_to_set dead.
Proof.
  revert m. induction dead as [|d dead IH]; intros m; simpl.
  - set_solver.
  - rewrite IH. simpl. set_solver.
Qed.

(** What a broadcast leaves behind, subscriber by subscriber. *)
Lemma broadcast_outcome (m : WSManager) (net : gmap WebSocket (list message))
    (ws : WebSocket) :
  (ws ∈ active (broadcast send_fails m net msg).1
   <-> ws ∈ active m /\ send_fails ws = false)
  /\ inbox (broadcast send_fails m net msg).2 ws
     = if decide (ws ∈ active m /\ send_fails ws = false)
       then inbox net ws ++ [msg] else inbox net ws.
Proof.
  unfold broadcast. cbv zeta. simpl.
  destruct (broadcast_loop (elements (active m)) (NoDup_elements _) [] net)
    as (Hd & Hok & Hko).
  set (st := foldl (broadcast_step send_fails msg) ([], net)
                   (elements (active m))) in *.
  split.
  - rewrite active_foldl_disconnect, elem_of_difference,
      elem_of_list_to_set, Hd, elem_of_elements.
    destruct (send_fails ws); set_solver.
  - destruct (decide (ws ∈ active m /\ send_fails ws = false)) as [[? ?]|Hn].
    + apply Hok; [by apply elem_of_elements | done].
    + apply Hko. rewrite elem_of_elements.
      destruct (send_fails ws); [by right | left; tauto].
Qed.

(** C4.  Every subscriber registered when the broadcast starts and whose
    send succeeds has received the message and is still registered,
    whatever the other sends did; every one whose send failed is no longer
    registered and has received nothing; nothing else changes.  With three
    subscribers of which exactly one fails, the two others remain and both
    have the message. *)
Theorem broadcast_isolates_failures (m : WSManager)
    (net : gmap WebSocket (list message)) :
  let m' := (broadcast send_fails m net msg).1 in
  let net' := (broadcast send_fails m net msg).2 in
  (forall ws, ws ∈ active m -> send_fails ws = false ->
     ws ∈ active m' /\ inbox net' ws = inbox net ws ++ [msg])
  /\ (forall ws, ws ∈ active m -> send_fails ws = true ->
     (ws ∉ active m') /\ inbox net' ws = inbox net ws)
  /\ (forall ws, ws ∉ active m ->
     (ws ∉ active m') /\ inbox net' ws = inbox net ws)
  /\ (forall a b c, a <> b -> a <> c -> b <> c ->
     active m = {[a; b; c]} ->
     send_fails a = true -> send_fails b = false -> send_fails c = false ->
     active m' = {[b; c]} /\ size (active m') = 2%nat
     /\ inbox net' b = inbox net b ++ [msg]
     /\ inbox net' c = inbox net c ++ [msg]).
Proof.
  cbv zeta.
  assert (H1 : forall ws, ws ∈ active m -> send_fails ws = false ->
     ws ∈ active (broadcast send_fails m net msg).1
     /\ inbox (broadcast send_fails m net msg).2 ws = inbox net ws ++ [msg]).
  { intros ws Hin Hws. destruct (broadcast_outcome m net ws) as [Ha ->].
    split; [by apply Ha|]. by rewrite decide_True. }
  split; [exact H1|]. split; [|split].
  - intros ws Hin Hws. destruct (broadcast_outcome m net ws) as [Ha ->].
    split; [rewrite Ha; intros [_ ?]; congruence|].
    rewrite decide_False; [done | intros [_ ?]; congruence].
  - intros ws Hin. destruct (broadcast_outcome m net ws) as [Ha ->].
    split; [rewrite Ha; tauto|].
    rewrite decide_False; [done | tauto].
  - intros a b c Hab Hac Hbc Hm Ha Hb Hc.
    assert (Hset : active (broadcast send_fails m net msg).1 = {[b; c]}).
    { apply set_eq. intros ws.
      rewrite (proj1 (broadcast_outcome m net ws)), Hm.
      rewrite !elem_of_union, !elem_of_singleton.
      split.
      - intros [[[->| ->]| ->] Hws]; [congruence | by left | by right].
      - intros [->| ->]; split; auto. }
    split; [exact Hset|]. split.
    + rewrite Hset. rewrite size_union by set_solver.
      by rewrite !size_singleton.
    + split; apply H1; try done; rewrite Hm; set_solver.
Qed.

End hub.

Lemma broadcast_isolates_failures_witness :
  let m := {| active := {[1%nat; 2%nat; 3%nat]} |} in
  let fails := fun ws : WebSocket => Nat.eqb ws 1 in
  let r := broadcast fails m ∅ (Prices []) in
  active r.1 = {[2%nat; 3%nat]} /\ size (active r.1) = 2%nat
  /\ inbox r.2 2%nat = inbox ∅ 2%nat ++ [Prices []]
  /\ inbox r.2 3%nat = inbox ∅ 3%nat ++ [Prices []].
Proof.
  cbv zeta.
  apply (proj2 (proj2 (proj2
           (broadcast_isolates_failures (fun ws => Nat.eqb ws 1) (Prices [])
              {| active := {[1%nat; 2%nat; 3%nat]} |} ∅)))
           1%nat 2%nat 3%nat);
    try reflexivity; lia.
Defined.

(** ** Polling ingestor *)

Section poll.
Variable env : poll_env.

Lemma poll_symbols_raises (api store : string) (rest : list (string * string))
    (st : poll_state) :
  client_get env api = HttpRaises ->
  poll_symbols env ((api, store) :: rest) st = (st, Raise TransportError).
Proof. simpl. by intros ->. Qed.



Lemma poll_symbols_write (api store : string) (rest : list (string * string))
    (st : poll_state) (q : quote) (p : Q) (ts : instant) :
  client_get env api = HttpResponse 200 (Some q) ->
  q_c q = Some p ->
  quote_ts env api (default 0 (q_t q)) = Ret ts ->
  insert_fails env {| row_ts := ts; row_symbol := store; row_price := p |}
  = false ->
  poll_symbols env ((api, store) :: rest) st
  = poll_symbols env rest
      (written st {| row_ts := ts; row_symbol := store; row_price := p |}).
Proof. simpl. by intros -> -> -> ->. Qed.

Lemma poll_symbols_store_failure (api store : string)
    (rest : list (string * string)) (st : poll_state) (q : quote) (p : Q)
    (ts : instant) :
  client_get env api = HttpResponse 200 (Some q) ->
  q_c q = Some p ->
  quote_ts env api (default 0 (q_t q)) = Ret ts ->
  insert_fails env {| row_ts := ts; row_symbol := store; row_price := p |}
  = true ->
  poll_symbols env ((api, store) :: rest) st = (st, Raise StatementError).
Proof. simpl. by intros -> -> -> ->. Qed.

End poll.

Lemma broadcasts_app (tr1 tr2 : list event) :
  broadcasts (tr1 ++ tr2) = broadcasts tr1 ++ broadcasts tr2.
Proof. apply omap_app. Qed.

(** A cycle whose loop raised: the table keeps what was written before the
    exception, the hub is untouched, the error is printed and the task goes
    to its sleep. *)
Lemma poll_cycle_raised (env : poll_env) (s : system) (st : poll_state)
    (e : exn) :
  poll_symbols env REST_SYMBOLS {| out := []; table := prices s; printed := [] |}
  = (st, Raise e) ->
  poll_cycle env s
  = {| prices := table st; ws_manager := ws_manager s; net := net s;
       trace := trace s ++ printed st ++ [Printed_poll_error e; Slept 5] |}.
Proof. unfold poll_cycle. by intros ->. Qed.




(** C9, as stated, fails.  First scenario: the write of the QQQ tick raises;
    SPY, whose fetch and write would both succeed, is never fetched nor
    written.  Second scenario: QQQ is written and the write of the SPY tick
    raises; the batch holding the QQQ tick is not broadcast. *)
Lemma store_failure_aborts_cycle :
  let quotes := fun _ : string =>
    HttpResponse 200 (Some {| q_c := Some 450%Q; q_t := Some 1690000000 |}) in
  let env1 :=
    {| client_get := quotes; clock := fun _ => 1690000005000000;
       insert_fails := fun r => String.eqb (row_symbol r) "QQQ";
       send_fails := fun _ => false |} in
  let env2 :=
    {| client_get := quotes; clock := fun _ => 1690000005000000;
       insert_fails := fun r => String.eqb (row_symbol r) "SPY";
       send_fails := fun _ => false |} in
  let s0 := {| prices := []; ws_manager := {| active := {[1%nat]} |};
               net := ∅; trace := [] |} in
  let qqq := {| row_ts := 1690000000000000; row_symbol := "QQQ";
                row_price := 450%Q |} in
  let spy := {| row_ts := 1690000000000000; row_symbol := "SPY";
                row_price := 450%Q |} in
  (insert_fails env1 spy = false
   /\ prices (poll_cycle env1 s0) = []
   /\ trace (poll_cycle env1 s0) = [Printed_poll_error StatementError; Slept 5])
  /\ (prices (poll_cycle env2 s0) = [qqq]
      /\ broadcasts (trace (poll_cycle env2 s0)) = []
      /\ inbox (net (poll_cycle env2 s0)) 1%nat = []).
Proof. cbv zeta. repeat split. Qed.

(** C9, amended: in the polling ingestor a store failure is caught by the
    [except] around the whole cycle and logged: the loop over the symbols
    stops at the failed write, with the batch and the table as they were
    before it; the cycle ends without a broadcast, keeping the rows written
    before the failure and leaving the hub untouched; the task is not
    terminated: it sleeps and runs its next cycle. *)
Theorem store_failure_ends_cycle_not_task (env : poll_env) (s : system)
    (api store : string) (rest : list (string * string)) (st : poll_state)
    (q : quote) (p : Q) (ts : instant) :
  client_get env api = HttpResponse 200 (Some q) ->
  q_c q = Some p ->
  quote_ts env api (default 0 (q_t q)) = Ret ts ->
  insert_fails env {| row_ts := ts; row_symbol := store; row_price := p |}
  = true ->
  poll_symbols env ((api, store) :: rest) st = (st, Raise StatementError)
  /\ (forall st',
        poll_symbols env REST_SYMBOLS
          {| out := []; table := prices s; printed := [] |}
        = (st', Raise StatementError) ->
        poll_cycle env s
        = {| prices := table st'; ws_manager := ws_manager s; net := net s;
             trace := trace s ++ printed st'
                      ++ [Printed_poll_error StatementError; Slept 5] |})
  /\ (forall token envs, token <> EmptyString ->
        finnhub_poll_task (Some token) (env :: envs) s
        = finnhub_poll_task (Some token) envs (poll_cycle env s)).
Proof.
  intros Hget Hc Hts Hins. split; [|split].
  - by apply (poll_symbols_store_failure env _ _ _ _ q p ts).
  - intros st'. apply poll_cycle_raised.
  - intros token envs Htok. destruct token; [contradiction | reflexivity].
Qed.

Lemma store_failure_ends_cycle_not_task_witness :
  let env :=
    {| client_get := fun _ : string =>
         HttpResponse 200 (Some {| q_c := Some 450%Q;
                                   q_t := Some 1690000000 |});
       clock := fun _ => 1690000005000000;
       insert_fails := fun r => String.eqb (row_symbol r) "QQQ";
       send_fails := fun _ => false |} in
  let st := {| out := []; table := []; printed := [] |} in
  poll_symbols env REST_SYMBOLS st = (st, Raise StatementError).
Proof.
  cbv zeta.
  apply (proj1 (store_failure_ends_cycle_not_task
    {| client_get := fun _ : string =>
         HttpResponse 200 (Some {| q_c := Some 450%Q;
                                   q_t := Some 1690000000 |});
       clock := fun _ => 1690000005000000;
       insert_fails := fun r => String.eqb (row_symbol r) "QQQ";
       send_fails := fun _ => false |}
    {| prices := []; ws_manager := {| active := ∅ |}; net := ∅; trace := [] |}
    "QQQ" "QQQ" [("SPY", "SPY")%string]
    {| out := []; table := []; printed := [] |}
    {| q_c := Some 450%Q; q_t := Some 1690000000 |} 450%Q 1690000000000000
    eq_refl eq_refl eq_refl eq_refl)).
Defined.

(** C10.  The normaliser gives the current time for the value 0, as it does
    for an absent value, and not the epoch; in the polling ingestor a quote
    whose timestamp is missing or 0 is stamped with the current time, and
    that is the tick written and batched. *)
Theorem zero_timestamp_means_now (env : poll_env) (now : instant)
    (api store : string) (rest : list (string * string)) (st : poll_state)
    (p : Q) (t : option Z) :
  t = None \/ t = Some 0 ->
  client_get env api = HttpResponse 200 (Some {| q_c := Some p; q_t := t |}) ->
  insert_fails env {| row_ts := clock env api; row_symbol := store;
                      row_price := p |} = false ->
  ts_utc_from_finnhub now (Some 0) = Ret now
  /\ ts_utc_from_finnhub now (Some 0) = ts_utc_from_finnhub now None
  /\ (now <> 0 -> ts_utc_from_finnhub now (Some 0) <> Ret 0)
  /\ quote_ts env api (default 0 t) = Ret (clock env api)
  /\ poll_symbols env ((api, store) :: rest) st
     = poll_symbols env rest
         (written st {| row_ts := clock env api; row_symbol := store;
                        row_price := p |}).
Proof.
  intros Ht Hget Hins.
  assert (Hts : quote_ts env api (default 0 t) = Ret (clock env api)).
  { by destruct Ht as [-> | ->]. }
  repeat split; try done.
  - intros Hnow [=]. contradiction.
  - by apply (poll_symbols_write env _ _ _ _
                {| q_c := Some p; q_t := t |} p (clock env api)).
Qed.

Lemma zero_timestamp_means_now_witness :
  let env :=
    {| client_get := fun _ : string =>
         HttpResponse 200 (Some {| q_c := Some 450%Q; q_t := Some 0 |});
       clock := fun _ => 1690000005000000;
       insert_fails := fun _ => false;
       send_fails := fun _ => false |} in
  ts_utc_from_finnhub 1690000005000000 (Some 0) = Ret 1690000005000000
  /\ quote_ts env "SPY" 0 = Ret 1690000005000000.
Proof.
  cbv zeta.
  pose proof (zero_timestamp_means_now
    {| client_get := fun _ : string =>
         HttpResponse 200 (Some {| q_c := Some 450%Q; q_t := Some 0 |});
       clock := fun _ => 1690000005000000;
       insert_fails := fun _ => false;
       send_fails := fun _ => false |}
    1690000005000000 "SPY" "SPY" [] {| out := []; table := []; printed := [] |}
    450%Q (Some 0) (or_intror eq_refl) eq_refl eq_refl) as (H1 & _ & _ & H4 & _).
  split; [exact H1 | exact H4].
Defined.

(** ** Backfill service *)


Section retry.
Variable env : yahoo_env.
Variable interval : string.
Variable include_prepost : bool.
Variables t1 t2 : Z.

(** A 200 leaves the loop by [break] after this request. *)
Lemma retry_200 (more : nat) (attempt : Z) (st : backfill_state) :
  y_status (yahoo_get env (requests st)) = 200 ->
  retry env t1 t2 interval include_prepost more attempt st
  = (after_get st (Get t1 t2 interval include_prepost),
     (yahoo_get env (requests st), false)).
Proof. destruct more; simpl; by intros ->. Qed.




End retry.

(** The two equations of the loop [while t2 > start]. *)
Lemma backfill_chunks_done (env : yahoo_env) (symbol interval : string)
    (include_prepost : bool) (start t2 : Z) (st : backfill_state) :
  t2 <= start ->
  backfill_chunks env symbol interval include_prepost start t2 st
  = (st, Ret None).
Proof.
  intros H. rewrite backfill_chunks_equation_1.
  destruct (Z_lt_dec start t2); [lia | by simp backfill_chunks].
Qed.


(** The loop over [zip(ts_list, close_list)] appends [chunk_rows] to the
    table and adds their number to the counter; it touches nothing else. *)
Lemma insert_closes_rows (symbol : string) (ts_list : list Z)
    (close_list : list (option Q)) (st : backfill_state) :
  insert_closes symbol ts_list close_list st
  = {| db := db st ++ chunk_rows symbol (Some (ts_list, close_list));
       inserted_total :=
         inserted_total st
         + Z.of_nat (length (chunk_rows symbol (Some (ts_list, close_list))));
       requests := requests st; draws := draws st; events := events st |}.
Proof.
  unfold chunk_rows. simpl. revert close_list st.
  induction ts_list as [|t ts_list IH]; intros close_list st.
  - destruct st. simpl. rewrite app_nil_r. f_equal. lia.
  - destruct close_list as [|[c|] close_list].
    + destruct st. simpl. rewrite app_nil_r. f_equal. lia.
    + simpl. rewrite IH. simpl. rewrite <- app_assoc. simpl. f_equal.
      rewrite Nat2Z.inj_succ. unfold Z.succ.
      rewrite <- Z.add_assoc, (Z.add_comm 1). reflexivity.
    + simpl. apply IH.
Qed.

Lemma store_closes_rows (symbol : string)
    (data : option (list Z * list (option Q))) (st : backfill_state) :
  store_closes symbol data st
  = {| db := db st ++ chunk_rows symbol data;
       inserted_total :=
         inserted_total st + Z.of_nat (length (chunk_rows symbol data));
       requests := requests st; draws := draws st; events := events st |}.
Proof.
  unfold store_closes.
  destruct data as [[ts_list close_list]|]; simpl.
  - destruct ts_list as [|t ts_list]; simpl.
    { destruct st. unfold chunk_rows. simpl. rewrite app_nil_r. f_equal. lia. }
    destruct close_list as [|c close_list]; simpl.
    { destruct st. unfold chunk_rows. simpl. rewrite app_nil_r. f_equal. lia. }
    apply (insert_closes_rows symbol (t :: ts_list) (c :: close_list)).
  - destruct st. unfold chunk_rows. simpl. rewrite app_nil_r. f_equal. lia.
Qed.

Section chunk.
Variable env : yahoo_env.
Variables symbol interval : string.
Variable include_prepost : bool.




End chunk.







(** ** Aggregation engine *)

Lemma Qmin_cases (x y : Q) : Qmin x y = x \/ Qmin x y = y.
Proof.
  unfold Qmin, GenericMinMax.gmin. destruct (x ?= y)%Q; auto.
Qed.

Lemma Qmax_cases (x y : Q) : Qmax x y = x \/ Qmax x y = y.
Proof.
  unfold Qmax, GenericMinMax.gmax. destruct (x ?= y)%Q; auto.
Qed.

(** [MIN] and [MAX] over a group: a bound of every price of the group, and
    the price of one of its rows. *)
Lemma foldl_Qmin (l : list row) (acc : Q) :
  let m := foldl (fun acc r' => Qmin acc (row_price r')) acc l in
  (m <= acc)%Q
  /\ (forall r', r' ∈ l -> (m <= row_price r')%Q)
  /\ (m = acc \/ exists r', r' ∈ l /\ m = row_price r').
Proof.
  cbv zeta. revert acc. induction l as [|a l IH]; intros acc; simpl.
  - split; [apply Qle_refl|]. split; [|by left].
    intros r' Hin. by apply elem_of_nil in Hin.
  - destruct (IH (Qmin acc (row_price a))) as (Hacc & Hall & Hin).
    split; [|split].
    + eapply Qle_trans; [exact Hacc | apply Q.le_min_l].
    + intros r' Hr'. apply elem_of_cons in Hr' as [->|Hr']; [|by apply Hall].
      eapply Qle_trans; [exact Hacc | apply Q.le_min_r].
    + destruct Hin as [Heq|(r' & Hr' & Heq)].
      * rewrite Heq.
        destruct (Qmin_cases acc (row_price a)) as [Hc|Hc]; rewrite Hc;
          [by left|].
        right. exists a. split; [apply list_elem_of_here | done].
      * right. exists r'. split; [by apply list_elem_of_further | done].
Qed.

Lemma foldl_Qmax (l : list row) (acc : Q) :
  let m := foldl (fun acc r' => Qmax acc (row_price r')) acc l in
  (acc <= m)%Q
  /\ (forall r', r' ∈ l -> (row_price r' <= m)%Q)
  /\ (m = acc \/ exists r', r' ∈ l /\ m = row_price r').
Proof.
  cbv zeta. revert acc. induction l as [|a l IH]; intros acc; simpl.
  - split; [apply Qle_refl|]. split; [|by left].
    intros r' Hin. by apply elem_of_nil in Hin.
  - destruct (IH (Qmax acc (row_price a))) as (Hacc & Hall & Hin).
    split; [|split].
    + eapply Qle_trans; [apply Q.le_max_l | exact Hacc].
    + intros r' Hr'. apply elem_of_cons in Hr' as [->|Hr']; [|by apply Hall].
      eapply Qle_trans; [apply Q.le_max_r | exact Hacc].
    + destruct Hin as [Heq|(r' & Hr' & Heq)].
      * rewrite Heq.
        destruct (Qmax_cases acc (row_price a)) as [Hc|Hc]; rewrite Hc;
          [by left|].
        right. exists a. split; [apply list_elem_of_here | done].
      * right. exists r'. split; [by apply list_elem_of_further | done].
Qed.

Lemma sql_min_spec (r : row) (rest : list row) :
  (forall r', r' ∈ r :: rest -> (sql_min r rest <= row_price r')%Q)
  /\ (exists r', r' ∈ r :: rest /\ sql_min r rest = row_price r').
Proof.
  destruct (foldl_Qmin rest (row_price r)) as (Hacc & Hall & Hin).
  fold (sql_min r rest) in *. split.
  - intros r' Hr'. apply elem_of_cons in Hr' as [->|Hr']; [done | by apply Hall].
  - destruct Hin as [Heq|(r' & Hr' & Heq)].
    + exists r. split; [apply list_elem_of_here | done].
    + exists r'. split; [by apply list_elem_of_further | done].
Qed.

Lemma sql_max_spec (r : row) (rest : list row) :
  (forall r', r' ∈ r :: rest -> (row_price r' <= sql_max r rest)%Q)
  /\ (exists r', r' ∈ r :: rest /\ sql_max r rest = row_price r').
Proof.
  destruct (foldl_Qmax rest (row_price r)) as (Hacc & Hall & Hin).
  fold (sql_max r rest) in *. split.
  - intros r' Hr'. apply elem_of_cons in Hr' as [->|Hr']; [done | by apply Hall].
  - destruct Hin as [Heq|(r' & Hr' & Heq)].
    + exists r. split; [apply list_elem_of_here | done].
    + exists r'. split; [by apply list_elem_of_further | done].
Qed.

(** The first row by [ts ASC], and by [ts DESC]: a row of the group, with
    the least, and the greatest, timestamp of the group. *)
Lemma first_by_ts_asc_spec (r : row) (rest : list row) :
  first_by_ts_asc r rest ∈ r :: rest
  /\ (forall r', r' ∈ r :: rest ->
        row_ts (first_by_ts_asc r rest) <= row_ts r').
Proof.
  unfold first_by_ts_asc. revert r.
  induction rest as [|a rest IH]; intros r; simpl.
  - split; [apply list_elem_of_here|].
    intros r' Hr'. apply list_elem_of_singleton in Hr' as ->. lia.
  - destruct (Z.ltb_spec (row_ts a) (row_ts r)) as [Hlt|Hge].
    + destruct (IH a) as [Hin Hmin]. split.
      * by apply list_elem_of_further.
      * intros r' Hr'. apply elem_of_cons in Hr' as [->|Hr'].
        -- specialize (Hmin a (list_elem_of_here _ _)). lia.
        -- by apply Hmin.
    + destruct (IH r) as [Hin Hmin]. split.
      * apply elem_of_cons in Hin as [->|Hin];
          [apply list_elem_of_here | by do 2 apply list_elem_of_further].
      * intros r' Hr'. apply elem_of_cons in Hr' as [->|Hr'].
        -- by apply Hmin, list_elem_of_here.
        -- apply elem_of_cons in Hr' as [->|Hr'].
           ++ specialize (Hmin r (list_elem_of_here _ _)). lia.
           ++ by apply Hmin, list_elem_of_further.
Qed.

Lemma first_by_ts_desc_spec (r : row) (rest : list row) :
  first_by_ts_desc r rest ∈ r :: rest
  /\ (forall r', r' ∈ r :: rest ->
        row_ts r' <= row_ts (first_by_ts_desc r rest)).
Proof.
  unfold first_by_ts_desc. revert r.
  induction rest as [|a rest IH]; intros r; simpl.
  - split; [apply list_elem_of_here|].
    intros r' Hr'. apply list_elem_of_singleton in Hr' as ->. lia.
  - destruct (Z.ltb_spec (row_ts r) (row_ts a)) as [Hlt|Hge].
    + destruct (IH a) as [Hin Hmax]. split.
      * by apply list_elem_of_further.
      * intros r' Hr'. apply elem_of_cons in Hr' as [->|Hr'].
        -- specialize (Hmax a (list_elem_of_here _ _)). lia.
        -- by apply Hmax.
    + destruct (IH r) as [Hin Hmax]. split.
      * apply elem_of_cons in Hin as [->|Hin];
          [apply list_elem_of_here | by do 2 apply list_elem_of_further].
      * intros r' Hr'. apply elem_of_cons in Hr' as [->|Hr'].
        -- by apply Hmax, list_elem_of_here.
        -- apply elem_of_cons in Hr' as [->|Hr'].
           ++ specialize (Hmax r (list_elem_of_here _ _)). lia.
           ++ by apply Hmax, list_elem_of_further.
Qed.

(** What the bar of a group is made of. *)
Lemma bar_of_group_spec (bucket : Z) (group : list row) (b : bar) :
  bar_of_group bucket group = Some b ->
  bar_time b = Z.quot bucket USEC_PER_SEC
  /\ (forall r, r ∈ group ->
        (bar_low b <= row_price r)%Q /\ (row_price r <= bar_high b)%Q)
  /\ (exists r, r ∈ group /\ row_price r = bar_low b)
  /\ (exists r, r ∈ group /\ row_price r = bar_high b)
  /\ (exists r, r ∈ group /\ row_price r = bar_open b
                /\ forall r', r' ∈ group -> row_ts r <= row_ts r')
  /\ (exists r, r ∈ group /\ row_price r = bar_close b
                /\ forall r', r' ∈ group -> row_ts r' <= row_ts r).
Proof.
  destruct group as [|r rest]; [discriminate|].
  intros [= <-]. simpl.
  destruct (sql_min_spec r rest) as [Hmin (rmin & Hrmin & Emin)].
  destruct (sql_max_spec r rest) as [Hmax (rmax & Hrmax & Emax)].
  destruct (first_by_ts_asc_spec r rest) as [Hfirst Hfirst_le].
  destruct (first_by_ts_desc_spec r rest) as [Hlast Hlast_ge].
  split; [reflexivity|]. split; [by intros r' Hr'; split; auto|].
  split; [by exists rmin|]. split; [by exists rmax|].
  split; [by exists (first_by_ts_asc r rest)|].
  by exists (first_by_ts_desc r rest).
Qed.

Lemma elem_of_cte_b (symbol : string) (lookback_min : Z) (now : instant)
    (prices : list row) (r : row) :
  r ∈ cte_b symbol lookback_min now prices
  <-> r ∈ prices /\ row_symbol r = symbol
      /\ now - make_interval_mins lookback_min <= row_ts r.
Proof. unfold cte_b. rewrite list_elem_of_filter. tauto. Qed.

Lemma elem_of_ohlc_query (res_min : Z) (rows : list row) (b : bar) :
  b ∈ ohlc_query res_min rows
  <-> exists bucket,
        bucket ∈ (bucket_of res_min <$> rows)
        /\ bar_of_group bucket (rows_of_bucket res_min bucket rows) = Some b.
Proof.
  unfold ohlc_query. rewrite list_elem_of_omap.
  split; intros (bucket & Hin & Hbar); exists bucket; split; try done.
  - by rewrite merge_sort_Permutation, elem_of_remove_dups in Hin.
  - by rewrite merge_sort_Permutation, elem_of_remove_dups.
Qed.



(** ** Bar-to-tick synthesiser *)



Lemma tick_display_symbol (symbol : string) (t : instant) (x : Q) :
  symbol <> "symbol"%string ->
  dict_display [("ts"%string, VInstant t); (symbol, VStr symbol);
                ("price"%string, VFloat x)] !! "symbol"%string = None.
Proof.
  intros Hsym. unfold dict_display. simpl.
  rewrite lookup_insert_ne by done.
  rewrite lookup_insert_ne by done.
  rewrite lookup_insert_ne by done.
  apply lookup_empty.
Qed.

(** Such a dictionary binds the parameters of the INSERT only when the
    argument [symbol] is the text ["symbol"] itself. *)
Lemma bind_params_tick (symbol : string) (t : instant) (x : Q) :
  bind_params (dict_display [("ts"%string, VInstant t); (symbol, VStr symbol);
                             ("price"%string, VFloat x)])
  = if decide (symbol = "symbol"%string)
    then Some {| row_ts := t; row_symbol := "symbol"; row_price := x |}
    else None.
Proof.
  destruct (decide (symbol = "symbol"%string)) as [->|Hsym].
  - by vm_compute.
  - unfold bind_params. rewrite tick_display_symbol by done.
    by repeat case_match.
Qed.

Lemma insert_ticks_unbound (d : gmap string value)
    (rows : list (gmap string value)) (prices : list row) :
  bind_params d = None ->
  insert_ticks (d :: rows) prices = Raise StatementError.
Proof.
  intros Hd. unfold insert_ticks.
  by rewrite (mapM_None_2 bind_params (d :: rows)) by (by left).
Qed.

(** C2 at the failing input: the four dictionaries built for SPY and the
    bar (10, 15, 8, 12) have the keys ["ts"], ["SPY"] and ["price"]; none
    binds [:symbol], the INSERT raises, nothing reaches the table, and the
    aggregation over the day has no bar to return. *)
Lemma synthetic_ticks_are_not_stored :
  let day := 1700000000 * USEC_PER_SEC in
  let ticks := synth_ticks_for_candle day "SPY" 10 15 8 12 in
  (fun d => d !! "SPY"%string) <$> ticks
  = [Some (VStr "SPY"); Some (VStr "SPY"); Some (VStr "SPY");
     Some (VStr "SPY")]
  /\ (fun d => d !! "symbol"%string) <$> ticks = [None; None; None; None]
  /\ bind_params <$> ticks = [None; None; None; None]
  /\ insert_ticks ticks [] = Raise StatementError
  /\ backfill_daily "SPY"
       [{| c_ts := day; c_open := 10; c_high := 15; c_low := 8;
           c_close := 12 |}] []
     = Raise StatementError
  /\ get_ohlc [] (day + USEC_PER_DAY) "SPY" Daily 2880 = inl [].
Proof. cbv zeta. repeat split; by vm_compute. Qed.




(** ** Further properties of the hub *)

(** A finished session of [ws_prices] leaves its connection unregistered
    and every other registration as it was; [disconnect] of a connection
    that is not registered changes nothing, and so does a second [connect]
    of one that is. *)
Theorem ws_session_leaves_hub_clean (m : WSManager) (ws : WebSocket) :
  (ws ∉ active (ws_prices m ws))
  /\ (forall ws', ws' <> ws ->
        (ws' ∈ active (ws_prices m ws) <-> ws' ∈ active m))
  /\ (ws ∉ active m -> active (disconnect m ws) = active m)
  /\ (ws ∉ active m -> active (ws_prices m ws) = active m)
  /\ active (connect (connect m ws) ws) = active (connect m ws).
Proof.
  unfold ws_prices, connect, disconnect. simpl.
  repeat split; try set_solver.
Qed.

(** A broadcast never registers anyone, and when no send fails it leaves
    the hub as it was. *)
Theorem broadcast_only_shrinks_hub (send_fails : WebSocket -> bool)
    (msg : message) (m : WSManager) (net : gmap WebSocket (list message)) :
  active (broadcast send_fails m net msg).1 ⊆ active m
  /\ ((forall ws, ws ∈ active m -> send_fails ws = false) ->
      active (broadcast send_fails m net msg).1 = active m).
Proof.
  split.
  - intros ws Hws. by apply (broadcast_outcome send_fails msg m net ws) in Hws as [? _].
  - intros Hok. apply set_eq. intros ws.
    rewrite (proj1 (broadcast_outcome send_fails msg m net ws)).
    split; [by intros [? _] | intros Hin; split; [done | by apply Hok]].
Qed.

(** Two broadcasts in a row: a subscriber dropped by the first receives
    nothing from the second, even if its send would succeed then; one that
    got the first message gets the second after it, if that send succeeds. *)
Theorem broadcast_twice (fails1 fails2 : WebSocket -> bool)
    (msg1 msg2 : message) (m : WSManager)
    (net : gmap WebSocket (list message)) (ws : WebSocket) :
  let r1 := broadcast fails1 m net msg1 in
  let r2 := broadcast fails2 r1.1 r1.2 msg2 in
  inbox r2.2 ws
  = if decide (ws ∈ active m /\ fails1 ws = false)
    then (if fails2 ws then inbox net ws ++ [msg1]
          else inbox net ws ++ [msg1; msg2])
    else inbox net ws.
Proof.
  cbv zeta.
  destruct (broadcast_outcome fails2 msg2 (broadcast fails1 m net msg1).1
              (broadcast fails1 m net msg1).2 ws) as [_ ->].
  destruct (broadcast_outcome fails1 msg1 m net ws) as [Hact ->].
  destruct (decide (ws ∈ active m /\ fails1 ws = false)) as [Hyes|Hno].
  - destruct (fails2 ws) eqn:Hf2.
    + rewrite decide_False; [done | intros [_ ?]; congruence].
    + rewrite decide_True; [by rewrite <- app_assoc | by rewrite Hact].
  - rewrite decide_False; [done | rewrite Hact; tauto].
Qed.

(** ** Further properties of the polling ingestor *)

(** The loop over the symbols, however it ends: the rows it appends to the
    table are the rows it appends to the batch, at most one per symbol, each
    under the store name of one of the symbols. *)
Lemma poll_symbols_appends (env : poll_env) (symbols : list (string * string))
    (st : poll_state) :
  exists new,
    table (poll_symbols env symbols st).1 = table st ++ new
    /\ out (poll_symbols env symbols st).1 = out st ++ new
    /\ (length new <= length symbols)%nat
    /\ (forall r, r ∈ new -> row_symbol r ∈ symbols.*2).
Proof.
  revert st. induction symbols as [|[api store] rest IH]; intros st.
  - exists []. simpl. rewrite !app_nil_r. repeat split; [lia|].
    intros r Hr. by apply elem_of_nil in Hr.
  - assert (Hskip : forall st0 : poll_state,
      table st0 = table st -> out st0 = out st ->
      exists new,
        table (poll_symbols env rest st0).1 = table st ++ new
        /\ out (poll_symbols env rest st0).1 = out st ++ new
        /\ (length new <= length ((api, store) :: rest))%nat
        /\ (forall r, r ∈ new -> row_symbol r ∈ ((api, store) :: rest).*2)).
    { intros st0 Ht Ho. destruct (IH st0) as (new & H1 & H2 & H3 & H4).
      exists new. rewrite H1, H2, Ht, Ho. repeat split; simpl; [lia|].
      intros r Hr. apply list_elem_of_further. by apply H4. }
    assert (Hstop : exists new,
        table st = table st ++ new /\ out st = out st ++ new
        /\ (length new <= length ((api, store) :: rest))%nat
        /\ (forall r, r ∈ new -> row_symbol r ∈ ((api, store) :: rest).*2)).
    { exists []. rewrite !app_nil_r. repeat split; simpl; [lia|].
      intros r Hr. by apply elem_of_nil in Hr. }
    simpl.
    destruct (client_get env api) as [|status body]; [exact Hstop|].
    destruct (negb (status =? 200)); [by apply Hskip|].
    destruct body as [q|]; [|exact Hstop].
    destruct (q_c q) as [price|]; [|by apply Hskip].
    destruct (quote_ts env api (default 0 (q_t q))) as [ts|e]; [|exact Hstop].
    destruct (insert_fails env _); [exact Hstop|].
    destruct (IH (written st {| row_ts := ts; row_symbol := store;
                                row_price := price |}))
      as (new & H1 & H2 & H3 & H4).
    exists ({| row_ts := ts; row_symbol := store; row_price := price |} :: new).
    rewrite H1, H2. simpl. rewrite <- !app_assoc. simpl.
    repeat split; [lia|].
    intros r Hr. apply elem_of_cons in Hr as [->|Hr].
    + apply list_elem_of_here.
    + apply list_elem_of_further. by apply H4.
Qed.

(** Whatever the quotes, the clock, the store and the sockets do, one cycle
    only appends to the table, at most one row per configured symbol and
    only under the names QQQ and SPY; it broadcasts at most one message,
    and that message is the batch of exactly the rows the cycle appended,
    never an empty one. *)
Theorem poll_cycle_stores_what_it_broadcasts (env : poll_env) (s : system) :
  exists new,
    prices (poll_cycle env s) = prices s ++ new
    /\ (length new <= 2)%nat
    /\ (forall r, r ∈ new -> row_symbol r = "QQQ"%string
                             \/ row_symbol r = "SPY"%string)
    /\ (broadcasts (trace (poll_cycle env s)) = broadcasts (trace s)
        \/ (new <> []
            /\ broadcasts (trace (poll_cycle env s))
               = broadcasts (trace s) ++ [Prices new])).
Proof.
  destruct (poll_symbols_appends env REST_SYMBOLS
              {| out := []; table := prices s; printed := [] |})
    as (new & Ht & Ho & Hlen & Hsym).
  exists new. unfold poll_cycle.
  assert (Hprinted : forall symbols st,
    broadcasts (printed (poll_symbols env symbols st).1)
    = broadcasts (printed st)).
  { induction symbols as [|[api store] rest IH]; intros st; [done|]. simpl.
    destruct (client_get env api) as [|status body]; [done|].
    destruct (negb (status =? 200)).
    { rewrite IH. simpl. rewrite broadcasts_app. simpl. apply app_nil_r. }
    destruct body as [q|]; [|done].
    destruct (q_c q) as [price|]; [|by rewrite IH].
    destruct (quote_ts env api (default 0 (q_t q))) as [ts|e]; [|done].
    destruct (insert_fails env _); [done|]. by rewrite IH. }
  specialize (Hprinted REST_SYMBOLS
                {| out := []; table := prices s; printed := [] |}).
  destruct (poll_symbols env REST_SYMBOLS
              {| out := []; table := prices s; printed := [] |})
    as [st res]. simpl in *.
  assert (Hnames : forall r, r ∈ new ->
            row_symbol r = "QQQ"%string \/ row_symbol r = "SPY"%string).
  { intros r Hr. specialize (Hsym r Hr).
    apply elem_of_cons in Hsym as [->|Hsym]; [by left|].
    apply list_elem_of_singleton in Hsym as ->. by right. }
  destruct res as [[]|e].
  - destruct (out st) as [|r0 batch] eqn:Hout.
    + simpl. repeat split; try done. left.
      rewrite !broadcasts_app, Hprinted. simpl. by rewrite !app_nil_r.
    + destruct (broadcast (send_fails env) (ws_manager s) (net s)
                  (Prices (r0 :: batch))) as [m' net'].
      simpl. repeat split; try done. right. split; [by rewrite <- Ho|].
      rewrite !broadcasts_app, Hprinted. simpl. by rewrite Ho.
  - simpl. repeat split; try done. left.
    rewrite !broadcasts_app, Hprinted. simpl. by rewrite !app_nil_r.
Qed.




(** ** Further properties of the backfill service *)

Lemma rev_app_append (s t acc : string) :
  String.rev_app (s ++ t) acc = String.rev_app t (String.rev_app s acc).
Proof. revert acc. induction s as [|a s IH]; intros acc; simpl; auto. Qed.

Lemma endswith_append_m (res : string) : endswith (res ++ "m") "m" = true.
Proof.
  unfold endswith, String.rev. rewrite rev_app_append. simpl.
  by destruct (String.rev_app res "").
Qed.

Lemma ascii_lower_d (a : Ascii.ascii) :
  String (ascii_lower a) "" = "d"%string ->
  String a "" = "d"%string \/ String a "" = "D"%string.
Proof.
  destruct a as [[] [] [] [] [] [] [] []]; vm_compute; intros H;
    first [discriminate H | by left | by right].
Qed.

Lemma lower_d (res : string) :
  lower res = "d"%string <-> res = "d"%string \/ res = "D"%string.
Proof.
  split.
  - destruct res as [|a [|b res]]; simpl; try discriminate.
    apply ascii_lower_d.
  - by intros [-> | ->].
Qed.

(** The resolutions ["D"] and ["d"], and no others, are fetched as daily
    bars in chunks of 180 days; every other text [res] is fetched with the
    interval [res ++ "m"] in chunks of 5 days. *)
Theorem chunk_days_of_resolution (res : string) :
  (res = "D"%string \/ res = "d"%string ->
   _yahoo_interval res = "1d"%string
   /\ _chunk_days_for_interval (_yahoo_interval res) = 180)
  /\ (res <> "D"%string -> res <> "d"%string ->
      _yahoo_interval res = (res ++ "m")%string
      /\ _chunk_days_for_interval (_yahoo_interval res) = 5).
Proof.
  split.
  - by intros [-> | ->].
  - intros HD Hd. unfold _yahoo_interval.
    destruct (String.eqb_spec res "D") as [|_]; [done|].
    destruct (String.eqb_spec (lower res) "d") as [Hl|_].
    { apply lower_d in Hl as [|]; done. }
    simpl. split; [done|].
    unfold _chunk_days_for_interval. by rewrite endswith_append_m.
Qed.

Lemma chunk_days_of_resolution_witness :
  _yahoo_interval "60" = "60m"%string
  /\ _chunk_days_for_interval (_yahoo_interval "60") = 5.
Proof.
  apply (proj2 (chunk_days_of_resolution "60")); discriminate.
Defined.

Lemma backoff_base_bounds (attempt : Z) :
  1 <= Z.min 8 (2 ^ Z.max 0 attempt) <= 8.
Proof.
  assert (0 < 2 ^ Z.max 0 attempt) by (apply Z.pow_pos_nonneg; lia). lia.
Qed.

(** With a jitter drawn from [[0, 0.5]] every backoff sleep lasts between 1
    and 8.5 seconds; it never gets shorter from one attempt to the next,
    and from the fourth attempt on its base is the cap of 8 seconds. *)
Theorem backoff_sleep_bounds (jitter : Q) (attempt attempt' : Z) :
  (0 <= jitter)%Q -> (jitter <= 1 # 2)%Q ->
  (1 <= _backoff_sleep jitter attempt)%Q
  /\ (_backoff_sleep jitter attempt <= 17 # 2)%Q
  /\ (attempt <= attempt' ->
      (_backoff_sleep jitter attempt <= _backoff_sleep jitter attempt')%Q)
  /\ (3 <= attempt -> _backoff_sleep jitter attempt = (8 + jitter)%Q).
Proof.
  intros Hlo Hhi. unfold _backoff_sleep. cbv zeta.
  pose proof (backoff_base_bounds attempt) as [Hb1 Hb8].
  split; [|split; [|split]].
  - apply (Qle_trans _ (inject_Z 1 + 0)); [discriminate|].
    apply Qplus_le_compat; [by rewrite <- Zle_Qle | done].
  - apply (Qle_trans _ (inject_Z 8 + (1 # 2))); [|discriminate].
    apply Qplus_le_compat; [by rewrite <- Zle_Qle | done].
  - intros Hle. apply Qplus_le_compat; [|apply Qle_refl].
    rewrite <- Zle_Qle.
    assert (2 ^ Z.max 0 attempt <= 2 ^ Z.max 0 attempt')
      by (apply Z.pow_le_mono_r; lia).
    lia.
  - intros H3.
    assert (2 ^ 3 <= 2 ^ Z.max 0 attempt) by (apply Z.pow_le_mono_r; lia).
    replace (Z.min 8 (2 ^ Z.max 0 attempt)) with 8 by lia. reflexivity.
Qed.

Lemma backoff_sleep_bounds_witness :
  (1 <= _backoff_sleep (1 # 4) 2)%Q /\ (_backoff_sleep (1 # 4) 2 <= 17 # 2)%Q.
Proof.
  destruct (backoff_sleep_bounds (1 # 4) 2 2) as (H1 & H2 & _).
  - discriminate.
  - discriminate.
  - split; [exact H1 | exact H2].
Defined.

(** The retry loop, entered with [more] turns left after the first: it
    makes between 1 and [more + 1] requests, sleeps at most once per
    request, inserts nothing, returns the response to its last request, and
    leaves without [return] only on a 200 or when the range is used up. *)
Lemma retry_bounds (env : yahoo_env) (t1 t2 : Z) (interval : string)
    (include_prepost : bool) (more : nat) (attempt : Z) (st : backfill_state) :
  let res := retry env t1 t2 interval include_prepost more attempt st in
  db res.1 = db st
  /\ inserted_total res.1 = inserted_total st
  /\ (requests st < requests res.1 <= requests st + S more)%nat
  /\ (draws st <= draws res.1 <= draws st + S more)%nat
  /\ res.2.1 = yahoo_get env (pred (requests res.1))
  /\ (res.2.2 = true ->
      y_status res.2.1 <> 200 /\ transient (y_status res.2.1) = false)
  /\ (res.2.2 = false -> y_status res.2.1 <> 200 ->
      transient (y_status res.2.1) = true
      /\ requests res.1 = (requests st + S more)%nat).
Proof.
  cbv zeta. revert attempt st.
  induction more as [|more IH]; intros attempt st.
  - simpl. destruct (Z.eqb_spec (y_status (yahoo_get env (requests st))) 200)
      as [E|NE]; simpl.
    { repeat split; try done; lia. }
    destruct (transient (y_status (yahoo_get env (requests st)))) eqn:Htr;
      simpl; repeat split; try done; lia.
  - simpl. destruct (Z.eqb_spec (y_status (yahoo_get env (requests st))) 200)
      as [E|NE]; simpl.
    { repeat split; try done; lia. }
    destruct (transient (y_status (yahoo_get env (requests st)))) eqn:Htr;
      simpl; [|repeat split; try done; lia].
    match goal with
    | |- context [retry _ _ _ _ _ more ?a ?s] =>
        destruct (IH a s) as (H1 & H2 & H3 & H4 & H5 & H6 & H7)
    end.
    simpl in H1, H2, H3, H4.
    split; [exact H1|]. split; [exact H2|]. split; [lia|]. split; [lia|].
    split; [exact H5|]. split; [exact H6|].
    intros Hf Hne. destruct (H7 Hf Hne) as [Ht Hr]. split; [exact Ht|].
    simpl in Hr. lia.
Qed.






(** A run asked for no days, or a negative number of them, makes no
    request and no sleep, inserts nothing and reports success with 0 rows. *)
Theorem backfill_of_no_days (env : yahoo_env) (now : Z) (table0 : list row)
    (symbol res : string) (days : Z) (include_prepost : bool) :
  days <= 0 ->
  backfill_yahoo env now table0 symbol res days include_prepost
  = ({| db := table0; inserted_total := 0; requests := 0; draws := 0;
        events := [] |},
     Ret (Backfill_ok 0 symbol res (_yahoo_interval res) days
            (_chunk_days_for_interval (_yahoo_interval res)))).
Proof.
  intros Hdays. unfold backfill_yahoo.
  by rewrite backfill_chunks_done by lia.
Qed.

Lemma backfill_of_no_days_witness :
  let env := {| yahoo_get := fun _ => {| y_status := 200; y_text := "";
                                         y_json := None |};
                uniform := fun _ => 0%Q |} in
  backfill_yahoo env 1700000000 [] "SPY" "5" (-3) true
  = ({| db := []; inserted_total := 0; requests := 0; draws := 0;
        events := [] |},
     Ret (Backfill_ok 0 "SPY" "5" "5m" (-3) 5)).
Proof.
  cbv zeta.
  apply (backfill_of_no_days
           {| yahoo_get := fun _ => {| y_status := 200; y_text := "";
                                       y_json := None |};
              uniform := fun _ => 0%Q |}
           1700000000 [] "SPY" "5" (-3) true).
  lia.
Defined.

Lemma retry_draws (env : yahoo_env) (t1 t2 : Z) (interval : string)
    (include_prepost : bool) (more : nat) (attempt : Z) (st : backfill_state) :
  let res := retry env t1 t2 interval include_prepost more attempt st in
  (draws res.1 + requests st <= requests res.1 + draws st)%nat.
Proof.
  cbv zeta. revert attempt st.
  induction more as [|more IH]; intros attempt st; simpl;
    destruct (y_status (yahoo_get env (requests st)) =? 200); simpl; try lia;
    destruct (transient (y_status (yahoo_get env (requests st))));
    simpl; try lia.
  match goal with
  | |- context [retry _ _ _ _ _ more ?a ?s] => specialize (IH a s)
  end.
  simpl in IH. lia.
Qed.

(** One chunk makes at least one and at most five requests and never more
    backoff sleeps than requests; the run moves on to the next chunk only
    after a 200, and a failure dictionary carries the window of the chunk
    and the status of the last response received, which is not 200. *)
Theorem chunk_makes_at_most_five_requests (env : yahoo_env)
    (symbol interval : string) (include_prepost : bool) (t1 t2 : Z)
    (st : backfill_state) :
  let res := backfill_chunk env symbol interval include_prepost t1 t2 st in
  let last := yahoo_get env (pred (requests res.1)) in
  (requests st < requests res.1 <= requests st + 5)%nat
  /\ (draws res.1 + requests st <= requests res.1 + draws st)%nat
  /\ (res.2 = Ret None -> y_status last = 200)
  /\ (forall f, res.2 = Ret (Some f) ->
        f_status f = y_status last /\ f_text f = y_text last
        /\ f_status f <> 200 /\ f_chunk f = (t1, t2)).
Proof.
  cbv zeta. unfold backfill_chunk.
  pose proof (retry_bounds env t1 t2 interval include_prepost 4 0 st)
    as (_ & _ & Hreq & _ & Hlast & Hret & _).
  pose proof (retry_draws env t1 t2 interval include_prepost 4 0 st) as Hdraws.
  destruct (retry env t1 t2 interval include_prepost 4 0 st)
    as [st1 [r returned]]. simpl in Hreq, Hlast, Hret, Hdraws.
  destruct returned.
  { simpl. destruct (Hret eq_refl) as [H200 _]. subst r.
    split; [lia|]. split; [lia|]. split; [done|].
    by intros f [= <-]. }
  destruct (Z.eqb_spec (y_status r) 200) as [E|NE]; simpl.
  - destruct (y_json r) as [data|]; simpl.
    + rewrite store_closes_rows. simpl. subst r.
      split; [lia|]. split; [lia|]. split; [done|]. done.
    + subst r. split; [lia|]. split; [lia|]. split; done.
  - subst r. split; [lia|]. split; [lia|]. split; [done|].
    by intros f [= <-].
Qed.

(** A 200 whose body is JSON without [chart.result[0]] is an empty chunk:
    nothing is inserted and the run goes on after its pause of 0.25 s; a 200
    whose body is not JSON makes the endpoint raise, after that one
    request. *)
Theorem empty_chunk_and_undecodable_body (env : yahoo_env)
    (symbol interval : string) (include_prepost : bool) (t1 t2 : Z)
    (st : backfill_state) :
  y_status (yahoo_get env (requests st)) = 200 ->
  (y_json (yahoo_get env (requests st)) = Some None ->
   backfill_chunk env symbol interval include_prepost t1 t2 st
   = ({| db := db st; inserted_total := inserted_total st;
         requests := S (requests st); draws := draws st;
         events := events st ++ [Get t1 t2 interval include_prepost;
                                 Polite_sleep (1 # 4)] |},
      Ret None))
  /\ (y_json (yahoo_get env (requests st)) = None ->
      backfill_chunk env symbol interval include_prepost t1 t2 st
      = ({| db := db st; inserted_total := inserted_total st;
            requests := S (requests st); draws := draws st;
            events := events st ++ [Get t1 t2 interval include_prepost] |},
         Raise JSONDecodeError)).
Proof.
  intros H200. unfold backfill_chunk. rewrite retry_200 by done.
  rewrite H200. simpl. split; intros ->; [|done].
  rewrite store_closes_rows. unfold after_sleep, chunk_rows. simpl.
  rewrite app_nil_r, Z.add_0_r, <- app_assoc. reflexivity.
Qed.

Lemma empty_chunk_and_undecodable_body_witness :
  let env := {| yahoo_get := fun _ => {| y_status := 200; y_text := "<html>";
                                         y_json := None |};
                uniform := fun _ => 0%Q |} in
  let st := {| db := []; inserted_total := 0; requests := 0; draws := 0;
               events := [] |} in
  backfill_chunk env "SPY" "1d" false 10 20 st
  = ({| db := []; inserted_total := 0; requests := 1; draws := 0;
        events := [Get 10 20 "1d" false] |},
     Raise JSONDecodeError).
Proof.
  cbv zeta.
  apply (proj2 (empty_chunk_and_undecodable_body
           {| yahoo_get := fun _ => {| y_status := 200; y_text := "<html>";
                                       y_json := None |};
              uniform := fun _ => 0%Q |}
           "SPY" "1d" false 10 20
           {| db := []; inserted_total := 0; requests := 0; draws := 0;
              events := [] |} eq_refl)).
  reflexivity.
Defined.

(** ** Further properties of the aggregation engine *)

Lemma cte_b_nil (symbol : string) (lookback_min : Z) (now : instant)
    (extra : list row) :
  (forall r, r ∈ extra ->
     row_symbol r <> symbol
     \/ row_ts r < now - make_interval_mins lookback_min) ->
  cte_b symbol lookback_min now extra = [].
Proof.
  intros Hextra. unfold cte_b.
  induction extra as [|r extra IH]; [done|].
  rewrite filter_cons_False.
  - apply IH. intros r' Hr'. apply Hextra. by apply list_elem_of_further.
  - intros [Hs Ht]. destruct (Hextra r (list_elem_of_here _ _)); [done | lia].
Qed.

(** Rows of other symbols, and rows older than the lookback window, never
    change what the endpoint returns, wherever they sit in the table. *)
Theorem ohlc_ignores_unselected_rows (prices extra : list row)
    (now : instant) (symbol : string) (res : resolution)
    (lookback_minutes : Z) :
  (forall r, r ∈ extra ->
     row_symbol r <> symbol
     \/ row_ts r < now - make_interval_mins lookback_minutes) ->
  get_ohlc (prices ++ extra) now symbol res lookback_minutes
  = get_ohlc prices now symbol res lookback_minutes
  /\ get_ohlc (extra ++ prices) now symbol res lookback_minutes
     = get_ohlc prices now symbol res lookback_minutes.
Proof.
  intros Hextra. unfold get_ohlc.
  assert (H1 : cte_b symbol lookback_minutes now (prices ++ extra)
               = cte_b symbol lookback_minutes now prices).
  { unfold cte_b. rewrite filter_app.
    fold (cte_b symbol lookback_minutes now extra).
    rewrite cte_b_nil by done. apply app_nil_r. }
  assert (H2 : cte_b symbol lookback_minutes now (extra ++ prices)
               = cte_b symbol lookback_minutes now prices).
  { unfold cte_b. rewrite filter_app.
    fold (cte_b symbol lookback_minutes now extra).
    by rewrite cte_b_nil by done. }
  by rewrite H1, H2.
Qed.

Lemma ohlc_ignores_unselected_rows_witness :
  let spy := {| row_ts := 1700000000000000; row_symbol := "SPY";
                row_price := 10 |} in
  let qqq := {| row_ts := 1700000001000000; row_symbol := "QQQ";
                row_price := 99 |} in
  get_ohlc ([spy] ++ [qqq]) 1700000100000000 "SPY" (Minutes 1) 390
  = get_ohlc [spy] 1700000100000000 "SPY" (Minutes 1) 390.
Proof.
  cbv zeta.
  apply (ohlc_ignores_unselected_rows
           [{| row_ts := 1700000000000000; row_symbol := "SPY";
               row_price := 10 |}]
           [{| row_ts := 1700000001000000; row_symbol := "QQQ";
               row_price := 99 |}]
           1700000100000000 "SPY" (Minutes 1) 390).
  intros r Hr. apply list_elem_of_singleton in Hr as ->. by left.
Defined.

(** A bucket start is a whole number of seconds on the grid of the origin. *)
Lemma bucket_of_grid (res_min : Z) (r : row) :
  bucket_of res_min r
  = USEC_PER_SEC
    * (946857600
       + res_min * 60 * ((row_ts r - TIME_BUCKET_ORIGIN)
                         / make_interval_mins res_min)).
Proof.
  unfold bucket_of, time_bucket, make_interval_mins, TIME_BUCKET_ORIGIN,
    USEC_PER_SEC. lia.
Qed.

Lemma bucket_of_bounds (res_min : Z) (r : row) :
  0 < res_min ->
  bucket_of res_min r <= row_ts r
  < bucket_of res_min r + make_interval_mins res_min.
Proof.
  intros Hpos. unfold bucket_of, time_bucket.
  assert (Hw : 0 < make_interval_mins res_min)
    by (unfold make_interval_mins, USEC_PER_SEC; lia).
  pose proof (Z.mul_div_le (row_ts r - TIME_BUCKET_ORIGIN) _ Hw).
  pose proof (Z.mul_succ_div_gt (row_ts r - TIME_BUCKET_ORIGIN) _ Hw).
  lia.
Qed.

Lemma buckets_strictly_sorted (l : list Z) :
  StronglySorted Z.lt (merge_sort Z.le (remove_dups l)).
Proof.
  assert (Hnd : NoDup (merge_sort Z.le (remove_dups l))).
  { rewrite merge_sort_Permutation. apply NoDup_remove_dups. }
  pose proof (StronglySorted_merge_sort Z.le (remove_dups l)) as Hs.
  induction Hs as [|x k Hk IH Hall]; [constructor|].
  apply NoDup_cons in Hnd as [Hx Hnd].
  constructor; [by apply IH|].
  apply Forall_forall. intros y Hy.
  rewrite Forall_forall in Hall. specialize (Hall y Hy).
  assert (x <> y) by (by intros ->). lia.
Qed.

Lemma quot_usec (k : Z) : Z.quot (USEC_PER_SEC * k) USEC_PER_SEC = k.
Proof. rewrite Z.mul_comm. by apply Z.quot_mul. Qed.

Lemma bar_of_group_time (bucket : Z) (group : list row) (b : bar) :
  bar_of_group bucket group = Some b ->
  bar_time b = Z.quot bucket USEC_PER_SEC.
Proof. destruct group; [done|]. by intros [= <-]. Qed.

Lemma omap_bars_sorted (g : Z -> option bar) (l : list Z) :
  (forall x b, g x = Some b -> bar_time b = Z.quot x USEC_PER_SEC) ->
  (forall x, x ∈ l -> exists k, x = USEC_PER_SEC * k) ->
  StronglySorted Z.lt l ->
  StronglySorted (fun a b => bar_time a < bar_time b) (omap g l).
Proof.
  intros Hg Hgrid Hs.
  induction Hs as [|x l Hl IH Hall]; [constructor|]. simpl.
  assert (IH' : StronglySorted (fun a b => bar_time a < bar_time b) (omap g l)).
  { apply IH. intros y Hy. apply Hgrid. by apply list_elem_of_further. }
  destruct (g x) as [b|] eqn:Hgx; [|exact IH'].
  constructor; [exact IH'|].
  apply Forall_forall. intros b' Hb'.
  apply list_elem_of_omap in Hb' as (y & Hy & Hgy).
  rewrite Forall_forall in Hall. specialize (Hall y Hy).
  rewrite (Hg x b Hgx), (Hg y b' Hgy).
  destruct (Hgrid x (list_elem_of_here _ _)) as [kx ->].
  destruct (Hgrid y (list_elem_of_further _ _ _ Hy)) as [ky ->].
  rewrite !quot_usec. unfold USEC_PER_SEC in Hall. lia.
Qed.

(** The bars come back strictly ascending in time, so no two bars share a
    time, and every time lies on the grid of the bucket width counted from
    the origin 2000-01-03T00:00:00Z (946857600). *)
Theorem ohlc_bars_strictly_ascending (prices : list row) (now : instant)
    (symbol : string) (res : resolution) (lookback_minutes : Z)
    (bars : list bar) :
  get_ohlc prices now symbol res lookback_minutes = inl bars ->
  StronglySorted (fun a b => bar_time a < bar_time b) bars
  /\ (forall b, b ∈ bars ->
        exists q, bar_time b = 946857600 + res_min_of res * 60 * q).
Proof.
  unfold get_ohlc. cbv zeta.
  destruct ((res_min_of res <=? 0)
            && negb (is_nil (cte_b symbol lookback_minutes now prices)));
    [discriminate|].
  intros [= <-]. split.
  - unfold ohlc_query. apply omap_bars_sorted.
    + intros x b. apply bar_of_group_time.
    + intros x Hx. rewrite merge_sort_Permutation, elem_of_remove_dups in Hx.
      apply list_elem_of_fmap in Hx as (r & -> & _).
      rewrite bucket_of_grid. eauto.
    + apply buckets_strictly_sorted.
  - intros b Hb. apply elem_of_ohlc_query in Hb as (bucket & Hin & Hbar).
    apply list_elem_of_fmap in Hin as (r & -> & _).
    rewrite (bar_of_group_time _ _ _ Hbar), bucket_of_grid, quot_usec.
    eauto.
Qed.

Lemma ohlc_bars_strictly_ascending_witness :
  let prices :=
    [ {| row_ts := 1700000070000000; row_symbol := "SPY"; row_price := 12 |};
      {| row_ts := 1700000000000000; row_symbol := "SPY"; row_price := 10 |};
      {| row_ts := 1700000010000000; row_symbol := "SPY"; row_price := 15 |} ] in
  let bars :=
    [ {| bar_time := 1699999980; bar_open := 10; bar_high := 15;
         bar_low := 10; bar_close := 15 |};
      {| bar_time := 1700000040; bar_open := 12; bar_high := 12;
         bar_low := 12; bar_close := 12 |} ] in
  get_ohlc prices 1700000100000000 "SPY" (Minutes 1) 390 = inl bars
  /\ StronglySorted (fun a b => bar_time a < bar_time b) bars.
Proof.
  cbv zeta.
  assert (Hget :
    get_ohlc
      [ {| row_ts := 1700000070000000; row_symbol := "SPY"; row_price := 12 |};
        {| row_ts := 1700000000000000; row_symbol := "SPY"; row_price := 10 |};
        {| row_ts := 1700000010000000; row_symbol := "SPY"; row_price := 15 |} ]
      1700000100000000 "SPY" (Minutes 1) 390
    = inl [ {| bar_time := 1699999980; bar_open := 10; bar_high := 15;
               bar_low := 10; bar_close := 15 |};
            {| bar_time := 1700000040; bar_open := 12; bar_high := 12;
               bar_low := 12; bar_close := 12 |} ]).
  { vm_compute. reflexivity. }
  split; [exact Hget|].
  exact (proj1 (ohlc_bars_strictly_ascending _ _ _ _ _ _ Hget)).
Defined.

(** With a positive width the query succeeds, and every tick of the symbol
    inside the lookback window is covered by a bar: one whose time is the
    start of the bucket the tick falls in, and whose low and high bound the
    price of the tick. *)
Theorem ohlc_covers_every_tick (prices : list row) (now : instant)
    (symbol : string) (res : resolution) (lookback_minutes : Z) (r : row) :
  0 < res_min_of res ->
  r ∈ prices ->
  row_symbol r = symbol ->
  now - make_interval_mins lookback_minutes <= row_ts r ->
  exists bars b,
    get_ohlc prices now symbol res lookback_minutes = inl bars
    /\ b ∈ bars
    /\ bar_time b * USEC_PER_SEC <= row_ts r
       < bar_time b * USEC_PER_SEC + make_interval_mins (res_min_of res)
    /\ (bar_low b <= row_price r)%Q
    /\ (row_price r <= bar_high b)%Q.
Proof.
  intros Hpos Hin Hsym Hts. unfold get_ohlc. cbv zeta.
  destruct (Z.leb_spec (res_min_of res) 0) as [|_]; [lia|]. simpl.
  assert (Hsel : r ∈ cte_b symbol lookback_minutes now prices)
    by (by apply elem_of_cte_b).
  assert (Hgroup : r ∈ rows_of_bucket (res_min_of res)
                         (bucket_of (res_min_of res) r)
                         (cte_b symbol lookback_minutes now prices)).
  { unfold rows_of_bucket. by apply list_elem_of_filter. }
  destruct (bar_of_group (bucket_of (res_min_of res) r)
              (rows_of_bucket (res_min_of res) (bucket_of (res_min_of res) r)
                 (cte_b symbol lookback_minutes now prices)))
    as [b|] eqn:Hbar.
  - exists (ohlc_query (res_min_of res)
              (cte_b symbol lookback_minutes now prices)), b.
    split; [done|]. split.
    { apply elem_of_ohlc_query. exists (bucket_of (res_min_of res) r).
      split; [|done]. apply list_elem_of_fmap. by exists r. }
    pose proof (bar_of_group_spec _ _ _ Hbar) as (Htime & Hbound & _).
    destruct (Hbound r Hgroup) as [Hlow Hhigh].
    split; [|done].
    rewrite Htime, bucket_of_grid, quot_usec, Z.mul_comm, <- bucket_of_grid.
    by apply bucket_of_bounds.
  - destruct (rows_of_bucket _ _ _); [by apply elem_of_nil in Hgroup | done].
Qed.

Lemma ohlc_covers_every_tick_witness :
  let tick := {| row_ts := 1700000010000000; row_symbol := "SPY";
                 row_price := 15 |} in
  exists bars b,
    get_ohlc [tick] 1700000100000000 "SPY" (Minutes 5) 390 = inl bars
    /\ b ∈ bars
    /\ bar_time b * USEC_PER_SEC <= row_ts tick
       < bar_time b * USEC_PER_SEC + make_interval_mins 5
    /\ (bar_low b <= row_price tick)%Q
    /\ (row_price tick <= bar_high b)%Q.
Proof.
  cbv zeta.
  apply (ohlc_covers_every_tick
           [{| row_ts := 1700000010000000; row_symbol := "SPY";
               row_price := 15 |}]
           1700000100000000 "SPY" (Minutes 5) 390
           {| row_ts := 1700000010000000; row_symbol := "SPY";
              row_price := 15 |}).
  - reflexivity.
  - apply list_elem_of_here.
  - reflexivity.
  - vm_compute. discriminate.
Defined.

Lemma remove_dups_replicate (B : Z) (n : nat) :
  remove_dups (replicate (S n) B) = [B].
Proof.
  induction n as [|n IH]; [done|].
  change (replicate (S (S n)) B) with (B :: replicate (S n) B).
  cbn [remove_dups]. rewrite IH.
  destruct (decide_rel elem_of B (replicate (S n) B)) as [_|Hn]; [done|].
  destruct Hn. apply list_elem_of_here.
Qed.

Lemma time_bucket_mono (width t t' : Z) :
  0 < width -> t <= t' -> time_bucket width t <= time_bucket width t'.
Proof.
  intros Hw Hle. unfold time_bucket.
  assert ((t - TIME_BUCKET_ORIGIN) / width <= (t' - TIME_BUCKET_ORIGIN) / width)
    by (apply Z.div_le_mono; lia).
  nia.
Qed.

(** Four ticks of one symbol inside the window, in one bucket, at strictly
    increasing times and priced open, low, high, close with
    [l <= min(o, c)] and [max(o, c) <= h] (what the synthesiser builds for a
    bar), aggregate to exactly one bar, and it is that bar: open [o], high
    [h], low [l], close [c], at the start of the bucket. *)
Theorem four_ticks_aggregate_to_their_bar (now : instant) (symbol : string)
    (res : resolution) (lookback_minutes : Z) (t0 t1 t2 t3 : instant)
    (o h l c : Q) :
  let width := make_interval_mins (res_min_of res) in
  let prices :=
    [ {| row_ts := t0; row_symbol := symbol; row_price := o |};
      {| row_ts := t1; row_symbol := symbol; row_price := l |};
      {| row_ts := t2; row_symbol := symbol; row_price := h |};
      {| row_ts := t3; row_symbol := symbol; row_price := c |} ] in
  0 < res_min_of res ->
  now - make_interval_mins lookback_minutes <= t0 ->
  t0 < t1 -> t1 < t2 -> t2 < t3 ->
  time_bucket width t3 = time_bucket width t0 ->
  (l <= Qmin o c)%Q ->
  (Qmax o c <= h)%Q ->
  exists b,
    get_ohlc prices now symbol res lookback_minutes = inl [b]
    /\ bar_time b * USEC_PER_SEC = time_bucket width t0
    /\ bar_open b = o
    /\ bar_close b = c
    /\ (bar_high b == h)%Q
    /\ (bar_low b == l)%Q.
Proof.
  cbv zeta. intros Hpos Hwin H01 H12 H23 Hsame Hlow Hhigh.
  set (r0 := {| row_ts := t0; row_symbol := symbol; row_price := o |}).
  set (r1 := {| row_ts := t1; row_symbol := symbol; row_price := l |}).
  set (r2 := {| row_ts := t2; row_symbol := symbol; row_price := h |}).
  set (r3 := {| row_ts := t3; row_symbol := symbol; row_price := c |}).
  set (B := time_bucket (make_interval_mins (res_min_of res)) t0).
  assert (Hw : 0 < make_interval_mins (res_min_of res))
    by (unfold make_interval_mins, USEC_PER_SEC; lia).
  assert (HB : forall t, t0 <= t <= t3 ->
            time_bucket (make_interval_mins (res_min_of res)) t = B).
  { intros t [? ?].
    pose proof (time_bucket_mono _ t0 t Hw ltac:(lia)).
    pose proof (time_bucket_mono _ t t3 Hw ltac:(lia)).
    unfold B in *. lia. }
  assert (Hb0 : bucket_of (res_min_of res) r0 = B) by (apply HB; simpl; lia).
  assert (Hb1 : bucket_of (res_min_of res) r1 = B) by (apply HB; simpl; lia).
  assert (Hb2 : bucket_of (res_min_of res) r2 = B) by (apply HB; simpl; lia).
  assert (Hb3 : bucket_of (res_min_of res) r3 = B) by (apply HB; simpl; lia).
  assert (Hcte : cte_b symbol lookback_minutes now [r0; r1; r2; r3]
                 = [r0; r1; r2; r3]).
  { unfold cte_b. rewrite !filter_cons_True by (simpl; split; [done | lia]).
    done. }
  assert (Hgroup : rows_of_bucket (res_min_of res) B [r0; r1; r2; r3]
                   = [r0; r1; r2; r3]).
  { unfold rows_of_bucket. by rewrite !filter_cons_True by done. }
  assert (Hquery : ohlc_query (res_min_of res) [r0; r1; r2; r3]
                   = [ {| bar_time := Z.quot B USEC_PER_SEC;
                          bar_open := row_price (first_by_ts_asc r0 [r1; r2; r3]);
                          bar_high := sql_max r0 [r1; r2; r3];
                          bar_low := sql_min r0 [r1; r2; r3];
                          bar_close :=
                            row_price (first_by_ts_desc r0 [r1; r2; r3]) |} ]).
  { unfold ohlc_query. cbn [fmap list_fmap]. rewrite Hb0, Hb1, Hb2, Hb3.
    change [B; B; B; B] with (replicate 4 B).
    rewrite (remove_dups_replicate B 3).
    change (merge_sort Z.le [B]) with [B].
    cbn [omap list_omap]. by rewrite Hgroup. }
  eexists. unfold get_ohlc. cbv zeta. rewrite Hcte, Hquery.
  destruct (Z.leb_spec (res_min_of res) 0) as [|_]; [lia|]. simpl negb.
  cbn [andb]. split; [reflexivity|]. cbn [bar_time bar_open bar_close bar_high bar_low].
  assert (Hlo : (l <= o)%Q) by (eapply Qle_trans; [exact Hlow | apply Q.le_min_l]).
  assert (Hlc : (l <= c)%Q) by (eapply Qle_trans; [exact Hlow | apply Q.le_min_r]).
  assert (Hoh : (o <= h)%Q) by (eapply Qle_trans; [apply Q.le_max_l | exact Hhigh]).
  assert (Hch : (c <= h)%Q) by (eapply Qle_trans; [apply Q.le_max_r | exact Hhigh]).
  assert (Hlh : (l <= h)%Q) by (eapply Qle_trans; [exact Hlo | exact Hoh]).
  split; [|split; [|split; [|split]]].
  - fold B. rewrite <- Hb0. rewrite bucket_of_grid, quot_usec.
    apply Z.mul_comm.
  - unfold first_by_ts_asc. simpl.
    rewrite (proj2 (Z.ltb_ge t1 t0)) by lia. simpl.
    rewrite (proj2 (Z.ltb_ge t2 t0)) by lia. simpl.
    by rewrite (proj2 (Z.ltb_ge t3 t0)) by lia.
  - unfold first_by_ts_desc. simpl.
    rewrite (proj2 (Z.ltb_lt t0 t1)) by lia. simpl.
    rewrite (proj2 (Z.ltb_lt t1 t2)) by lia. simpl.
    by rewrite (proj2 (Z.ltb_lt t2 t3)) by lia.
  - destruct (sql_max_spec r0 [r1; r2; r3]) as [Hge (r' & Hr' & Emax)].
    apply Qle_antisym.
    + rewrite Emax. rewrite !elem_of_cons in Hr'.
      destruct Hr' as [->|[->|[->|[->|Hr']]]]; simpl; try done.
      * apply Qle_refl.
      * by apply elem_of_nil in Hr'.
    + apply (Hge r2). by do 2 apply list_elem_of_further; apply list_elem_of_here.
  - destruct (sql_min_spec r0 [r1; r2; r3]) as [Hle (r' & Hr' & Emin)].
    apply Qle_antisym.
    + apply (Hle r1). by apply list_elem_of_further, list_elem_of_here.
    + rewrite Emin. rewrite !elem_of_cons in Hr'.
      destruct Hr' as [->|[->|[->|[->|Hr']]]]; simpl; try done.
      * apply Qle_refl.
      * by apply elem_of_nil in Hr'.
Qed.

Lemma four_ticks_aggregate_to_their_bar_witness :
  let prices :=
    [ {| row_ts := 1699920000000000; row_symbol := "SPY"; row_price := 10 |};
      {| row_ts := 1699920060000000; row_symbol := "SPY"; row_price := 8 |};
      {| row_ts := 1699920120000000; row_symbol := "SPY"; row_price := 15 |};
      {| row_ts := 1699920180000000; row_symbol := "SPY"; row_price := 12 |} ] in
  exists b,
    get_ohlc prices 1700006400000000 "SPY" Daily 2880 = inl [b]
    /\ bar_time b * USEC_PER_SEC
       = time_bucket (make_interval_mins 1440) 1699920000000000
    /\ bar_open b = 10%Q
    /\ bar_close b = 12%Q
    /\ (bar_high b == 15)%Q
    /\ (bar_low b == 8)%Q.
Proof.
  cbv zeta.
  apply (four_ticks_aggregate_to_their_bar 1700006400000000 "SPY" Daily 2880
           1699920000000000 1699920060000000 1699920120000000
           1699920180000000 10 15 8 12).
  - reflexivity.
  - vm_compute. discriminate.
  - reflexivity.
  - reflexivity.
  - reflexivity.
  - vm_compute. reflexivity.
  - vm_compute. discriminate.
  - vm_compute. discriminate.
Defined.

(** ** Further properties of the synthesiser and its script *)

Lemma backfill_daily_unbound (symbol : string) (k : candle)
    (df : list candle) (prices : list row) :
  symbol <> "symbol"%string ->
  backfill_daily symbol (k :: df) prices = Raise StatementError.
Proof.
  intros Hsym. unfold backfill_daily. cbn [flat_map].
  unfold synth_ticks_for_candle at 1. cbn [app].
  apply insert_ticks_unbound. rewrite bind_params_tick.
  by rewrite decide_False.
Qed.

Lemma backfill_intraday_unbound (symbol : string) (k : candle)
    (df : list candle) (prices : list row) :
  symbol <> "symbol"%string ->
  backfill_intraday symbol (k :: df) prices = Raise StatementError.
Proof.
  intros Hsym. unfold backfill_intraday. cbn [flat_map].
  unfold intraday_ticks_for_candle at 1. cbn [app].
  apply insert_ticks_unbound. rewrite bind_params_tick.
  by rewrite decide_False.
Qed.

(** For every symbol other than the text ["symbol"], and every bar, the
    dictionaries the two backfills build do not bind [:symbol]: as soon as
    Yahoo returns one candle the INSERT raises and no row is written; with
    no candle the table is left as it is.  Either way the table never
    changes. *)
Theorem synthetic_backfill_never_stores (symbol : string) (df : list candle)
    (prices : list row) :
  symbol <> "symbol"%string ->
  backfill_daily symbol df prices
  = (if is_nil df then Ret prices else Raise StatementError)
  /\ backfill_intraday symbol df prices
     = (if is_nil df then Ret prices else Raise StatementError).
Proof.
  intros Hsym. destruct df as [|k df]; [done|]. simpl is_nil. cbv iota.
  split; [by apply backfill_daily_unbound | by apply backfill_intraday_unbound].
Qed.

Lemma synthetic_backfill_never_stores_witness :
  let k := {| c_ts := 1700000047 * USEC_PER_SEC; c_open := 10; c_high := 15;
              c_low := 8; c_close := 12 |} in
  backfill_daily "QQQ" [k] [] = Raise StatementError
  /\ backfill_intraday "QQQ" [k] [] = Raise StatementError.
Proof.
  cbv zeta.
  apply (synthetic_backfill_never_stores "QQQ"
           [{| c_ts := 1700000047 * USEC_PER_SEC; c_open := 10; c_high := 15;
               c_low := 8; c_close := 12 |}] []).
  discriminate.
Defined.

(** The script ends normally only when Yahoo returns no candle at all, and
    then the table is untouched; with any candle it ends with the
    exception of the INSERT.  It never adds a row. *)
Theorem tool_main_never_stores
    (history_daily history_intraday : string -> list candle)
    (prices : list row) :
  main history_daily history_intraday prices
  = if is_nil (history_daily "SPY") && is_nil (history_intraday "SPY")
       && is_nil (history_daily "QQQ") && is_nil (history_intraday "QQQ")
    then Ret prices
    else Raise StatementError.
Proof.
  unfold main, main_symbol.
  destruct (synthetic_backfill_never_stores "SPY" (history_daily "SPY") prices
              ltac:(discriminate)) as [-> _].
  destruct (is_nil (history_daily "SPY")); [|done]. simpl.
  destruct (synthetic_backfill_never_stores "SPY" (history_intraday "SPY")
              prices ltac:(discriminate)) as [_ ->].
  destruct (is_nil (history_intraday "SPY")); [|done]. simpl.
  destruct (synthetic_backfill_never_stores "QQQ" (history_daily "QQQ") prices
              ltac:(discriminate)) as [-> _].
  destruct (is_nil (history_daily "QQQ")); [|done]. simpl.
  destruct (synthetic_backfill_never_stores "QQQ" (history_intraday "QQQ")
              prices ltac:(discriminate)) as [_ ->].
  by destruct (is_nil (history_intraday "QQQ")).
Qed.
